(** * Supysonic: the transcoding and streaming pipeline of [api/media.py]

    A shallow embedding of [prepare_transcoding_cmdline] and of the
    [/stream] endpoint [stream_media] with its nested generators
    [transcode], [kill_processes] and [handle_transcoding].

    Python values are modelled as follows: [str] as [string], [int] as [Z],
    [None]-or-value as [option], a [dict] as a [gmap], a raised exception as
    the [Error] branch of [result].  Behaviour of the Python standard library
    and of the operating system that the endpoint relies on is collected in
    the class [Host]. *)

From Stdlib Require Import ZArith String Ascii List Bool Lia.
From Stdlib Require Import DecimalString DecimalZ.
From stdpp Require Import gmap strings.
Import ListNotations.

Local Open Scope string_scope.

(** ** Python primitives *)

Module Py.

(** Truth value of an optional string: [None] and [""] are falsy. *)
Definition truthy_str (o : option string) : bool :=
  match o with
  | Some EmptyString => false
  | Some _ => true
  | None => false
  end.

(** Truth value of an optional integer: [None] and [0] are falsy. *)
Definition truthy_int (o : option Z) : bool :=
  match o with
  | Some z => negb (z =? 0)%Z
  | None => false
  end.

(** Truth value of an optional list: [None] and [[]] are falsy. *)
Definition truthy_list {A} (o : option (list A)) : bool :=
  match o with
  | Some (_ :: _) => true
  | _ => false
  end.

(** [a or b] on optional strings. *)
Definition or_str (a b : option string) : option string :=
  if truthy_str a then a else b.

(** [str(n)] for an [int]. *)
Definition str_int (n : Z) : string :=
  NilZero.string_of_int (Z.to_int n).

(** [s.replace(old, new)] for a non-empty [old]: occurrences are found
    left to right and do not overlap.  [skip] counts the characters of a
    match that are still to be dropped. *)
Fixpoint replace_from (old new : string) (skip : nat) (s : string) : string :=
  match s with
  | EmptyString => EmptyString
  | String c s' =>
      match skip with
      | S k => replace_from old new k s'
      | O =>
          if String.prefix old s
          then new ++ replace_from old new (String.length old - 1) s'
          else String c (replace_from old new 0 s')
      end
  end.

(** With an empty [old], Python inserts [new] before every character and
    at the end. *)
Fixpoint interleave (new s : string) : string :=
  match s with
  | EmptyString => new
  | String c s' => new ++ String c (interleave new s')
  end.

Definition replace (old new s : string) : string :=
  match old with
  | EmptyString => interleave new s
  | _ => replace_from old new 0 s
  end.

(** [c in s] for a character. *)
Fixpoint contains_char (c : ascii) (s : string) : bool :=
  match s with
  | EmptyString => false
  | String d s' => Ascii.eqb c d || contains_char c s'
  end.

End Py.

(** ** The host: library and operating-system behaviour

    These functions belong to Python's standard library and to the
    operating system, not to the program; the endpoint is parametric in
    them. *)

Class Host := {
  (** [str.lower] *)
  py_lower : string -> string;
  (** [int(s)]; [None] stands for [ValueError] *)
  py_int : string -> option Z;
  (** [mimetypes.guess_type(name, False)[0]] *)
  guess_type : string -> option string;
  (** [shlex.split]; [None] stands for [ValueError] *)
  shlex_split : string -> option (list string);
  (** whether [subprocess.Popen] starts the command ([false]: [OSError]) *)
  popen_ok : list string -> bool
}.

(** ** Data model *)

(** The attributes of a [Track] entity that the endpoint reads.  [album_name]
    is [res.album.name], [artist_name] is [res.artist.name], [total_tracks]
    is [res.album.tracks.count()], [suffix] is [res.suffix()]. *)
Record track := {
  id : string;
  path : string;
  title : string;
  album_name : string;
  artist_name : string;
  number : Z;
  total_tracks : Z;
  disc : Z;
  genre : option string;
  year : option Z;
  bitrate : Z;
  duration : Z;
  suffix : string;
  mimetype : string
}.

(** Exceptions the endpoint raises or lets through. *)
Inductive error :=
| UnsupportedParameter (name : string)
| GenericError (message : string)
| ServerError (message : string)
| ValueError
| IndexError
| TypeError.

Inductive result (A : Type) :=
| Ok (a : A)
| Error (e : error).
Arguments Ok {A} a.
Arguments Error {A} e.

(** ** [prepare_transcoding_cmdline] *)

(** The placeholders and their values, in the order of the chained
    [.replace] calls. *)
Definition substitutions (res : track) (input_format output_format : string)
    (output_bitrate : Z) : list (string * string) :=
  [ ("%srcpath", path res);
    ("%srcfmt", input_format);
    ("%outfmt", output_format);
    ("%outrate", Py.str_int output_bitrate);
    ("%title", title res);
    ("%album", album_name res);
    ("%artist", artist_name res);
    ("%tracknumber", Py.str_int (number res));
    ("%totaltracks", Py.str_int (total_tracks res));
    ("%discnumber", Py.str_int (disc res));
    ("%genre", if Py.truthy_str (genre res) then default "" (genre res) else "");
    ("%year", match year res with
              | Some y => if Py.truthy_int (Some y) then Py.str_int y else ""
              | None => ""
              end) ].

(** One element of the list comprehension: the chain of replacements applied
    to one token. *)
Definition substitute (subs : list (string * string)) (part : string) : string :=
  fold_left (fun acc kv => Py.replace (fst kv) (snd kv) acc) subs part.

Section WithHost.
Context `{Host}.

(** [None] is the Python [None]; [Error ValueError] is what [shlex.split]
    raises on a template it cannot tokenize. *)
Definition prepare_transcoding_cmdline (base_cmdline : option string)
    (res : track) (input_format output_format : string) (output_bitrate : Z)
  : result (option (list string)) :=
  if negb (Py.truthy_str base_cmdline) then Ok None
  else
    match shlex_split (default "" base_cmdline) with
    | None => Error ValueError
    | Some ret =>
        Ok (Some (map (substitute
                         (substitutions res input_format output_format
                                        output_bitrate)) ret))
    end.

End WithHost.

(** ** [stream_media]: request, preferences, configuration *)

(** The request values the endpoint reads.  [has_timeOffset] and [has_size]
    are ["timeOffset" in request.values] and ["size" in request.values]; the
    other three are [request.values.get(...)]. *)
Record request := {
  has_timeOffset : bool;
  has_size : bool;
  maxBitRate : option string;
  format : option string;
  estimateContentLength : option string
}.

(** [request.client]: the stored preferences of the calling client. *)
Record client_prefs := {
  pref_format : option string;
  pref_bitrate : option Z
}.

(** [current_app.config["TRANSCODING"]] *)
Abbreviation config_t := (gmap string string).

(** The transcode cache as [cache.get] sees it: finished artifacts by key.
    A key that is absent raises [CacheMiss]. *)
Abbreviation cache_t := (gmap string string).

(** The negotiated target, lines 81-114. *)
Record target := {
  dst_suffix : string;
  dst_bitrate : Z;
  dst_mimetype : string
}.

(** The two process handles of the endpoint. *)
Inductive proc_id := DecProc | Proc.

(** What the endpoint does to the world before it returns. *)
Inductive effect :=
| CacheGet (key : string)
| Popen (who : proc_id) (argv : list string)
| PopenFailed (who : proc_id) (argv : list string)
| CacheSetGenerated (key : string).

(** The response object.  [SendFile] is [send_file(file, mimetype=...,
    conditional=...)]; [Stream] is [Response(resp_content, mimetype=...)]
    over the generator that [cache.set_generated] returns for
    [handle_transcoding], which closes over [dec_proc] (present or not) and
    [estimate]. *)
Inductive response :=
| SendFile (file : string) (mime : string) (conditional : bool)
| Stream (key : string) (has_dec : bool) (estimate : option Z)
         (mime : string) (content_length : option Z).

(** Lines 89-96. *)
Definition choose_format (request_format pref_format : option string)
    (src_suffix : string) : bool * string :=
  if Py.truthy_str request_format then
    (false, if String.eqb (default "" request_format) "raw"
            then src_suffix else default "" request_format)
  else if Py.truthy_str pref_format then
    (false, default "" pref_format)
  else
    (true, src_suffix).

(** Lines 98-99. *)
Definition lower_bitrate (pref_bitrate : option Z) (dst_bitrate : Z) : Z :=
  if Py.truthy_int pref_bitrate && (default 0%Z pref_bitrate <? dst_bitrate)%Z
  then default 0%Z pref_bitrate
  else dst_bitrate.

(** [cache_key = "{}-{}.{}".format(res.id, dst_bitrate, dst_suffix)] *)
Definition cache_key (res_id : string) (bitrate : Z) (sfx : string) : string :=
  res_id ++ "-" ++ Py.str_int bitrate ++ "." ++ sfx.

(** Lines 154-157. *)
Definition compute_estimate (estimateContentLength : option string)
    (bitrate dur : Z) : option Z :=
  match estimateContentLength with
  | Some s => if String.eqb s "true"
              then Some (bitrate * 1000 * dur / 8)%Z
              else None
  | None => None
  end.

(** Lines 126-136: which templates are kept.  The result is the triple
    [(transcoder, decoder, encoder)] as it stands at line 138. *)
Definition select_templates (config : config_t) (src_suffix sfx : string)
  : result (option string * option string * option string) :=
  let transcoder := config !! ("transcoder_" ++ src_suffix ++ "_" ++ sfx) in
  let decoder := Py.or_str (config !! ("decoder_" ++ src_suffix))
                           (config !! "decoder") in
  let encoder := Py.or_str (config !! ("encoder_" ++ sfx))
                           (config !! "encoder") in
  if negb (Py.truthy_str transcoder)
     && (negb (Py.truthy_str decoder) || negb (Py.truthy_str encoder))
  then
    let transcoder := config !! "transcoder" in
    if negb (Py.truthy_str transcoder)
    then Error (GenericError
                  ("No way to transcode from " ++ src_suffix ++ " to " ++ sfx))
    else Ok (transcoder, decoder, encoder)
  else Ok (transcoder, decoder, encoder).

Section Endpoint.
Context `{Host}.

(** Lines 101-107. *)
Definition cap_bitrate (config : config_t) (maxBitRate : option string)
    (using_default_format : bool) (sfx : string) (rate : Z)
  : result (string * Z) :=
  if Py.truthy_str maxBitRate then
    match py_int (default "" maxBitRate) with
    | None => Error ValueError
    | Some m =>
        if (rate >? m)%Z && negb (m =? 0)%Z then
          Ok (if using_default_format
              then default sfx (Py.or_str (config !! "default_transcode_target")
                                          (Some sfx))
              else sfx,
              m)
        else Ok (sfx, rate)
    end
  else Ok (sfx, rate).

(** Lines 78-79: [request_format] after it was put in lower case. *)
Definition request_format (req : request) : option string :=
  if Py.truthy_str (format req)
  then Some (py_lower (default "" (format req)))
  else format req.

(** Lines 75-114: the negotiation. *)
Definition negotiate (config : config_t) (prefs : client_prefs)
    (req : request) (res : track) : result target :=
  let src_suffix := suffix res in
  let '(using_default_format, sfx) :=
    choose_format (request_format req) (pref_format prefs) src_suffix in
  let rate := lower_bitrate (pref_bitrate prefs) (bitrate res) in
  match cap_bitrate config (maxBitRate req) using_default_format sfx rate with
  | Error e => Error e
  | Ok (sfx, rate) =>
      let mime :=
        if negb (String.eqb sfx src_suffix)
        then default "application/octet-stream"
               (Py.or_str (guess_type ("dummyname." ++ sfx))
                          (Some "application/octet-stream"))
        else mimetype res in
      Ok {| dst_suffix := sfx; dst_bitrate := rate; dst_mimetype := mime |}
  end.

(** Line 116. *)
Definition requires_transcode (res : track) (t : target) : bool :=
  negb (String.eqb (dst_suffix t) (suffix res))
  || negb (dst_bitrate t =? bitrate res)%Z.

(** [subprocess.Popen(argv, ...)] as called at lines 145-150.  [None] for
    [argv] and an empty [argv] make [Popen] raise before it starts
    anything, with an exception that line 151 does not catch; an [OSError]
    is turned into [ServerError] by lines 151-152. *)
Definition popen (who : proc_id) (argv : option (list string))
  : list effect * result unit :=
  match argv with
  | None => ([], Error TypeError)
  | Some [] => ([], Error IndexError)
  | Some a =>
      if popen_ok a
      then ([Popen who a], Ok tt)
      else ([PopenFailed who a],
            Error (ServerError "Error while running the transcoding process"))
  end.

(** Lines 142-152: start the single transcoder or the decoder and then
    the encoder.  The value is whether a decoder process exists. *)
Definition start_processes (transcoder decoder encoder : option (list string))
  : list effect * result bool :=
  if Py.truthy_list transcoder then
    match popen Proc transcoder with
    | (fx, Ok _) => (fx, Ok false)
    | (fx, Error e) => (fx, Error e)
    end
  else
    match popen DecProc decoder with
    | (fx, Error e) => (fx, Error e)
    | (fx, Ok _) =>
        match popen Proc encoder with
        | (fx', Ok _) => ((fx ++ fx')%list, Ok true)
        | (fx', Error e) => ((fx ++ fx')%list, Error e)
        end
    end.

(** Lines 138-141: the three templates are rendered in turn; the first
    one that cannot be tokenized ends the request. *)
Definition prepare_all (templates : option string * option string * option string)
    (res : track) (src_suffix sfx : string) (rate : Z)
  : result (option (list string) * option (list string) * option (list string)) :=
  let '(transcoder, decoder, encoder) := templates in
  match prepare_transcoding_cmdline transcoder res src_suffix sfx rate with
  | Error e => Error e
  | Ok t =>
      match prepare_transcoding_cmdline decoder res src_suffix sfx rate with
      | Error e => Error e
      | Ok d =>
          match prepare_transcoding_cmdline encoder res src_suffix sfx rate with
          | Error e => Error e
          | Ok e => Ok (t, d, e)
          end
      end
  end.

(** Lines 125-208: the handler of [CacheMiss]. *)
Definition on_cache_miss (config : config_t) (req : request) (res : track)
    (t : target) (key : string) : list effect * result response :=
  match select_templates config (suffix res) (dst_suffix t) with
  | Error e => ([], Error e)
  | Ok templates =>
      match prepare_all templates res (suffix res) (dst_suffix t)
                        (dst_bitrate t) with
      | Error e => ([], Error e)
      | Ok (transcoder, decoder, encoder) =>
          match start_processes transcoder decoder encoder with
          | (fx, Error e) => (fx, Error e)
          | (fx, Ok has_dec) =>
              let estimate :=
                compute_estimate (estimateContentLength req)
                                 (dst_bitrate t) (duration res) in
              ((fx ++ [CacheSetGenerated key])%list,
               Ok (Stream key has_dec estimate (dst_mimetype t) estimate))
          end
      end
  end.

(** The endpoint from line 70 on, for the track [res] that
    [get_entity(Track)] returned.  The bookkeeping of lines 212-216 (play
    count, last play) and the log lines do not touch anything modelled
    here and are left out. *)
Definition stream_media (config : config_t) (cache : cache_t)
    (prefs : client_prefs) (req : request) (res : track)
  : list effect * result response :=
  if has_timeOffset req then ([], Error (UnsupportedParameter "timeOffset"))
  else if has_size req then ([], Error (UnsupportedParameter "size"))
  else
    match negotiate config prefs req res with
    | Error e => ([], Error e)
    | Ok t =>
        if requires_transcode res t then
          let key := cache_key (id res) (dst_bitrate t) (dst_suffix t) in
          match cache !! key with
          | Some file =>
              ([CacheGet key], Ok (SendFile file (dst_mimetype t) true))
          | None =>
              let '(fx, r) := on_cache_miss config req res t key in
              (CacheGet key :: fx, r)
          end
        else
          ([], Ok (SendFile (path res) (dst_mimetype t) true))
    end.

End Endpoint.

(** ** Double-precision arithmetic of [estimate * 0.95]

    [estimate] and [sent] are Python integers, [0.95] is a double.  The
    product converts [estimate] to a double and multiplies; both steps round
    to 53 significant bits, ties to even.  The comparison [sent >= product]
    of an integer with a double is exact in Python.  Doubles are represented
    by integers in units of [2^-53]. *)

Module Float.
Local Open Scope Z_scope.

(** The significand of the double written [0.95], which is
    [0x1.e666666666666p-1]: its value is [mant_095 / 2^53]. *)
Definition mant_095 : Z := 8556839292003942.

(** Round a non-negative integer to 53 significant bits, ties to even. *)
Definition round53 (n : Z) : Z :=
  let bits := Z.log2 n + 1 in
  if bits <=? 53 then n
  else
    let sh := bits - 53 in
    let q := n / 2 ^ sh in
    let r := n mod 2 ^ sh in
    let half := 2 ^ (sh - 1) in
    let q' := if r <? half then q
              else if half <? r then q + 1
              else if Z.even q then q else q + 1 in
    q' * 2 ^ sh.

(** [float(e)] as an integer; [None] is [OverflowError]. *)
Definition of_int (e : Z) : option Z :=
  let x := round53 (Z.abs e) in
  if 2 ^ 1024 <=? x then None else Some (Z.sgn e * x).

(** The double [e * 0.95] in units of [2^-53]. *)
Definition mul_095 (e : Z) : option Z :=
  match of_int e with
  | None => None
  | Some x => Some (Z.sgn x * round53 (Z.abs x * mant_095))
  end.

(** [sent >= e * 0.95] *)
Definition ge_095 (sent e : Z) : option bool :=
  match mul_095 e with
  | None => None
  | Some f => Some (f <=? sent * 2 ^ 53)
  end.

End Float.

(** ** The generators [transcode] and [handle_transcoding] *)

(** Exceptions by the [except] clause that takes them: [ExException] is any
    instance of [Exception]; [ExBaseException] is any other [BaseException]
    that is none of the three named ones. *)
Inductive exn :=
| ExException
| ExSystemExit
| ExKeyboardInterrupt
| ExGeneratorExit
| ExBaseException.

(** What one call of [proc.stdout.read(8192)] does: it returns bytes (none
    at end of stream) or raises. *)
Inductive read_result :=
| Data (bytes : list Byte.byte)
| ReadRaises (e : exn).

(** What is done to the process handles, in the order it is done. *)
Inductive action :=
| Kill (p : proc_id)
| CloseStdout (p : proc_id)
| Wait (p : proc_id).

(** A [Popen] handle. *)
Record handle := {
  killed : bool;
  stdout_closed : bool;
  waited : bool
}.

Definition fresh : handle :=
  {| killed := false; stdout_closed := false; waited := false |}.

(** The variables the generators close over, with the future results of
    reading the pipe of [proc] ([pipe]; an exhausted list is end of stream)
    and the history of what was done to the handles ([log]). *)
Record world := {
  dec_proc : option handle;
  proc : handle;
  pipe : list read_result;
  log : list action
}.

Definition kill (h : handle) : handle :=
  {| killed := true; stdout_closed := stdout_closed h; waited := waited h |}.

Definition close_and_wait (h : handle) : handle :=
  {| killed := killed h; stdout_closed := true; waited := true |}.

(** Lines 166-169. *)
Definition kill_processes (w : world) : world :=
  match dec_proc w with
  | Some d =>
      {| dec_proc := Some (kill d); proc := kill (proc w); pipe := pipe w;
         log := (log w ++ [Kill DecProc; Kill Proc])%list |}
  | None =>
      {| dec_proc := None; proc := kill (proc w); pipe := pipe w;
         log := (log w ++ [Kill Proc])%list |}
  end.

(** Lines 192-197: the [finally] block. *)
Definition finally (w : world) : world :=
  match dec_proc w with
  | Some d =>
      {| dec_proc := Some (close_and_wait d); proc := close_and_wait (proc w);
         pipe := pipe w;
         log := (log w ++ [CloseStdout DecProc; Wait DecProc;
                           CloseStdout Proc; Wait Proc])%list |}
  | None =>
      {| dec_proc := None; proc := close_and_wait (proc w); pipe := pipe w;
         log := (log w ++ [CloseStdout Proc; Wait Proc])%list |}
  end.

(** One turn of the loop of [transcode], lines 160-164. *)
Inductive chunk :=
| Chunk (data : list Byte.byte)
| EndOfStream
| Failure (e : exn).

Definition set_pipe (w : world) (p : list read_result) : world :=
  {| dec_proc := dec_proc w; proc := proc w; pipe := p; log := log w |}.

Definition transcode (w : world) : chunk * world :=
  match pipe w with
  | [] => (EndOfStream, w)
  | Data [] :: rest => (EndOfStream, set_pipe w rest)
  | Data data :: rest => (Chunk data, set_pipe w rest)
  | ReadRaises e :: rest => (Failure e, set_pipe w rest)
  end.

(** Where the generator [handle_transcoding] is suspended. *)
Inductive gen_state :=
| NotStarted
| Streaming (sent : Z)   (* at the [yield] of line 176 *)
| Draining               (* inside the [yield from] of line 188 *)
| Finished.

(** What the consumer does to the generator: [next(gen)] or
    [gen.throw(e)]; closing it throws [GeneratorExit]. *)
Inductive signal :=
| Next
| Throw (e : exn).

(** What the consumer gets back. *)
Inductive outcome :=
| Yielded (data : list Byte.byte)
| StopIteration
| Raised (e : exn).

(** Line 187: [estimate and sent >= estimate * 0.95]; [None] is the
    [OverflowError] of the product. *)
Definition near_the_end (estimate : option Z) (sent : Z) : option bool :=
  match estimate with
  | None => Some false
  | Some e => if (e =? 0)%Z then Some false else Float.ge_095 sent e
  end.

Section Generator.
Variable estimate : option Z.

(** Leaving the [try] statement: the [finally] block runs. *)
Definition leave (o : outcome) (w : world) : gen_state * world * outcome :=
  (Finished, finally w, o).

(** Line 188, entered or resumed: the next chunk of a [transcode()] that
    runs inside the handler of [GeneratorExit], where no [except] clause
    applies any more. *)
Definition drain (w : world) : gen_state * world * outcome :=
  match transcode w with
  | (Chunk data, w') => (Draining, w', Yielded data)
  | (EndOfStream, w') => leave StopIteration w'
  | (Failure e, w') => leave (Raised e) w'
  end.

(** Lines 177-191: an exception [e] reaches the [except] clauses. *)
Definition except (sent : Z) (e : exn) (w : world)
  : gen_state * world * outcome :=
  match e with
  | ExException | ExSystemExit | ExKeyboardInterrupt =>
      leave (Raised e) (kill_processes w)
  | ExGeneratorExit =>
      match near_the_end estimate sent with
      | Some true => drain w
      | Some false => leave (Raised ExGeneratorExit) (kill_processes w)
      | None => leave (Raised ExException) w
      end
  | ExBaseException => leave (Raised e) w
  end.

(** Lines 174-176: the next turn of the [for] loop. *)
Definition loop (sent : Z) (w : world) : gen_state * world * outcome :=
  match transcode w with
  | (Chunk data, w') =>
      (Streaming (sent + Z.of_nat (length data)), w', Yielded data)
  | (EndOfStream, w') => leave StopIteration w'
  | (Failure e, w') => except sent e w'
  end.

(** One resumption of the generator. *)
Definition handle_transcoding (st : gen_state) (s : signal) (w : world)
  : gen_state * world * outcome :=
  match st, s with
  | NotStarted, Next => loop 0 w
  | NotStarted, Throw e => (Finished, w, Raised e)
  | Streaming sent, Next => loop sent w
  | Streaming sent, Throw e => except sent e w
  | Draining, Next => drain w
  | Draining, Throw e => leave (Raised e) w
  | Finished, Next => (Finished, w, StopIteration)
  | Finished, Throw e => (Finished, w, Raised e)
  end.

(** A consumer that sends the signals in turn. *)
Fixpoint run (st : gen_state) (w : world) (ss : list signal)
  : gen_state * world * list outcome :=
  match ss with
  | [] => (st, w, [])
  | s :: ss' =>
      let '(st', w', o) := handle_transcoding st s w in
      let '(st'', w'', os) := run st' w' ss' in
      (st'', w'', o :: os)
  end.

End Generator.

(** The world in which the generator is created: the handles as [Popen]
    returned them. *)
Definition initial_world (has_dec : bool) (p : list read_result) : world :=
  {| dec_proc := if has_dec then Some fresh else None;
     proc := fresh; pipe := p; log := [] |}.

(** Both handles closed and reaped. *)
Definition released (w : world) : bool :=
  match dec_proc w with
  | Some d => stdout_closed d && waited d
  | None => true
  end && stdout_closed (proc w) && waited (proc w).

(** The actions of the [finally] block. *)
Definition cleanup_actions (w : world) : list action :=
  match dec_proc w with
  | Some _ => [CloseStdout DecProc; Wait DecProc; CloseStdout Proc; Wait Proc]
  | None => [CloseStdout Proc; Wait Proc]
  end.

(** The actions of [kill_processes]. *)
Definition kill_actions (w : world) : list action :=
  match dec_proc w with
  | Some _ => [Kill DecProc; Kill Proc]
  | None => [Kill Proc]
  end.


(** ** Several requests against one cache *)





Section Server.
Context `{Host}.
Variable config : config_t.



End Server.


(** ** A host for the examples

    The ASCII fragment of the library functions: enough to evaluate the
    endpoint on concrete requests. *)

Module Shlex.

(** [shlex.split] in POSIX mode: blanks separate words, single quotes
    keep everything, double quotes keep everything but a backslash before
    a double quote or a backslash, a backslash outside quotes keeps the
    next character. *)
Inductive state :=
| InSpace
| InWord
| InQuote (q : ascii)
| InEscape (back : option ascii).

Definition is_space (c : ascii) : bool :=
  Ascii.eqb c " " || Ascii.eqb c "009" || Ascii.eqb c "010" || Ascii.eqb c "013".

Definition is_quote (c : ascii) : bool :=
  Ascii.eqb c "'" || Ascii.eqb c "034".

Definition is_escape (c : ascii) : bool := Ascii.eqb c "\".

Definition snoc (t : string) (c : ascii) : string := t ++ String c "".

Fixpoint read (s : string) (st : state) (quoted : bool) (token : string)
    (out : list string) : option (list string) :=
  match s with
  | EmptyString =>
      match st with
      | InSpace => Some (rev out)
      | InWord => Some (rev (token :: out))
      | InQuote _ | InEscape _ => None
      end
  | String c s' =>
      match st with
      | InSpace =>
          if is_space c then read s' InSpace false "" out
          else if is_escape c then read s' (InEscape None) quoted token out
          else if is_quote c then read s' (InQuote c) quoted token out
          else read s' InWord quoted (String c "") out
      | InWord =>
          if is_space c then read s' InSpace false "" (token :: out)
          else if is_quote c then read s' (InQuote c) quoted token out
          else if is_escape c then read s' (InEscape None) quoted token out
          else read s' InWord quoted (snoc token c) out
      | InQuote q =>
          if Ascii.eqb c q then read s' InWord true token out
          else if is_escape c && Ascii.eqb q "034"
          then read s' (InEscape (Some q)) true token out
          else read s' (InQuote q) true (snoc token c) out
      | InEscape None => read s' InWord quoted (snoc token c) out
      | InEscape (Some q) =>
          if negb (is_escape c) && negb (Ascii.eqb c q)
          then read s' (InQuote q) quoted (snoc (snoc token "\") c) out
          else read s' (InQuote q) quoted (snoc token c) out
      end
  end.

Definition split (s : string) : option (list string) :=
  read s InSpace false "" [].

End Shlex.

Definition ascii_lower (c : ascii) : ascii :=
  let n := nat_of_ascii c in
  if (65 <=? n)%nat && (n <=? 90)%nat then ascii_of_nat (n + 32) else c.

Fixpoint lower (s : string) : string :=
  match s with
  | EmptyString => EmptyString
  | String c s' => String (ascii_lower c) (lower s')
  end.

Definition decimal (s : string) : option Z :=
  match NilZero.int_of_string s with
  | Some d => Some (Z.of_int d)
  | None => None
  end.

Definition guess_audio (name : string) : option string :=
  if String.eqb name "dummyname.mp3" then Some "audio/mpeg"
  else if String.eqb name "dummyname.ogg" then Some "audio/ogg"
  else if String.eqb name "dummyname.flac" then Some "audio/flac"
  else None.

Definition example_host : Host :=
  {| py_lower := lower;
     py_int := decimal;
     guess_type := guess_audio;
     shlex_split := Shlex.split;
     popen_ok := fun _ => true |}.

(** ** Track identifiers

    The declaration of [Track.id] is in the entity store ([..db]), not in
    [api/media.py]: tracks are keyed by a UUID, and [format] renders it in
    the canonical form of 36 characters, [8-4-4-4-12] hexadecimal digits in
    lower case. *)

Definition is_hex (c : ascii) : bool :=
  let n := nat_of_ascii c in
  ((48 <=? n)%nat && (n <=? 57)%nat) || ((97 <=? n)%nat && (n <=? 102)%nat).

Fixpoint uuid_shape (pos : nat) (s : string) : bool :=
  match s with
  | EmptyString => (pos =? 36)%nat
  | String c s' =>
      (if (pos =? 8)%nat || (pos =? 13)%nat || (pos =? 18)%nat || (pos =? 23)%nat
       then Ascii.eqb c "-" else is_hex c)
      && uuid_shape (S pos) s'
  end.

Definition is_uuid (s : string) : bool := uuid_shape 0 s.

(** ** Data for the examples *)

Definition so_what : track :=
  {| id := "9b2e5a2c-1f3d-4e7a-8c1b-0a1b2c3d4e5f";
     path := "/music/Kind of Blue/01 So What.mp3";
     title := "So What";
     album_name := "Kind of Blue";
     artist_name := "Miles Davis";
     number := 1; total_tracks := 5; disc := 1;
     genre := None; year := Some 1959%Z;
     bitrate := 320; duration := 545;
     suffix := "mp3"; mimetype := "audio/mpeg" |}.

Definition flamenco : track :=
  {| id := "0c5d7e90-aa41-4c2b-9d0e-5b6f7a8c9d01";
     path := "/music/Kind of Blue/05 Flamenco Sketches.flac";
     title := "Flamenco Sketches";
     album_name := "Kind of Blue";
     artist_name := "Miles Davis";
     number := 5; total_tracks := 5; disc := 1;
     genre := Some "Jazz"; year := None;
     bitrate := 192; duration := 566;
     suffix := "flac"; mimetype := "audio/flac" |}.

Definition tagged_template : string :=
  "ffmpeg -i %srcpath -metadata 'title=%title' -f %outfmt -".

Definition shell_title : track :=
  {| id := "5f0c1d2e-3a4b-4c5d-8e6f-708192a3b4c5";
     path := "/music/a b.mp3";
     title := "Don't; rm -rf $HOME";
     album_name := "x"; artist_name := "y";
     number := 1; total_tracks := 1; disc := 1;
     genre := None; year := None;
     bitrate := 320; duration := 10;
     suffix := "mp3"; mimetype := "audio/mpeg" |}.

Definition ffmpeg_template : string :=
  "ffmpeg -i %srcpath -ab %outratek -v 0 -f %outfmt -".

Definition example_config : config_t :=
  <["transcoder" := ffmpeg_template]>
    (<["default_transcode_target" := "ogg"]> ∅).

Definition piped_config : config_t :=
  <["decoder_flac" := "flac -d -c %srcpath"]>
    (<["encoder_mp3" := "lame -b %outrate - -"]> ∅).

Definition plain_request : request :=
  {| has_timeOffset := false; has_size := false;
     maxBitRate := None; format := None; estimateContentLength := None |}.

Definition capped_request : request :=
  {| has_timeOffset := false; has_size := false;
     maxBitRate := Some "128"; format := None;
     estimateContentLength := Some "true" |}.

Definition raw_request : request :=
  {| has_timeOffset := false; has_size := false;
     maxBitRate := Some "0"; format := Some "raw";
     estimateContentLength := None |}.

Definition mp3_request : request :=
  {| has_timeOffset := false; has_size := false;
     maxBitRate := None; format := Some "MP3";
     estimateContentLength := None |}.

Definition no_prefs : client_prefs :=
  {| pref_format := None; pref_bitrate := None |}.

Definition ogg_prefs : client_prefs :=
  {| pref_format := Some "ogg"; pref_bitrate := Some 96%Z |}.

(** ** Runs of the generator: what the consumer has received *)

(** The chunks among the outcomes of a run, in order. *)
Fixpoint yielded (os : list outcome) : list (list Byte.byte) :=
  match os with
  | [] => []
  | Yielded data :: os' => data :: yielded os'
  | _ :: os' => yielded os'
  end.

(** [sum(len(data))] over chunks. *)
Fixpoint total_length (chunks : list (list Byte.byte)) : Z :=
  match chunks with
  | [] => 0%Z
  | data :: chunks' => (Z.of_nat (length data) + total_length chunks')%Z
  end.

(** The chunks that reads of the pipe hand on: a read that returns no byte
    or raises hands on nothing. *)
Fixpoint delivered (p : list read_result) : list (list Byte.byte) :=
  match p with
  | [] => []
  | Data (b :: data) :: p' => (b :: data) :: delivered p'
  | _ :: p' => delivered p'
  end.

(** Whether an outcome is an exception. *)
Definition is_raised (o : outcome) : bool :=
  match o with
  | Raised _ => true
  | _ => false
  end.

(** ** Paths *)

Module OsPath.

(** The text before and after the last occurrence of a character. *)
Fixpoint rsplit (c : ascii) (s : string) : option (string * string) :=
  match s with
  | EmptyString => None
  | String a s' =>
      match rsplit c s' with
      | Some (pre, post) => Some (String a pre, post)
      | None => if Ascii.eqb a c then Some (EmptyString, s') else None
      end
  end.

(** [os.path.basename] of [posixpath]: what follows the last slash. *)
Definition basename (p : string) : string :=
  match rsplit "/" p with
  | Some (_, post) => post
  | None => p
  end.

Fixpoint all_dots (s : string) : bool :=
  match s with
  | EmptyString => true
  | String a s' => Ascii.eqb a "." && all_dots s'
  end.

(** [os.path.splitext] of [posixpath]: the extension starts at the last
    dot of the last component, unless only dots come before it there. *)
Definition splitext (p : string) : string * string :=
  let '(dir, base) :=
    match rsplit "/" p with
    | Some (pre, post) => (pre ++ "/", post)
    | None => ("", p)
    end in
  match rsplit "." base with
  | Some (stem, rest) =>
      if all_dots stem then (p, "") else (dir ++ stem, String "." rest)
  | None => (p, "")
  end.

End OsPath.

(** ** [download_media] *)

(** An [Album] or a [Folder] as [download_media] reads it: [rv.name] and
    [rv.tracks]. *)
Record collection := {
  coll_name : string;
  coll_tracks : list track
}.

(** The entity store: [Track[uid]], [Album[uid]] and [Folder[fid]]; a key
    that is absent raises [ObjectNotFound].  UUID keys are held by their
    text. *)
Record entities := {
  track_table : gmap string track;
  album_table : gmap string collection;
  folder_table : gmap Z collection
}.

(** [get_entity_id] of the package ([api/__init__.py]): the identifier in
    its proper type, or [None] where it raises [GenericError]. *)
Class EntityIds := {
  (** [get_entity_id(Track, id)] *)
  get_track_id : string -> option string;
  (** [get_entity_id(Folder, id)] *)
  get_folder_id : string -> option Z
}.

(** What [download_media] raises. *)
Inductive download_error :=
| BadRequestKeyError (key : string)
| DownloadGenericError (message : string)
| NotFound (entity : string).

(** What [download_media] returns: [send_file(file, mimetype=..,
    conditional=..)], or a [Response] over a [ZipFile] with its members
    ([z.write(filename, arcname)], in the order written), its mimetype and
    its [Content-Disposition] header. *)
Inductive download :=
| Plain (file mime : string) (conditional : bool)
| Zipped (members : list (string * string)) (mime disposition : string).

(** Lines 252-257. *)
Definition zipped (rv : collection) : download :=
  Zipped (map (fun t => (path t, OsPath.basename (path t))) (coll_tracks rv))
         "application/zip"
         ("attachment; filename=" ++ coll_name rv ++ ".zip").

Section Download.
Context `{EntityIds}.

(** Lines 222-257; [id] is [request.values] at ["id"], [None] when the
    request has no such value. *)
Definition download_media (db : entities) (id : option string)
  : download + download_error :=
  match id with
  | None => inr (BadRequestKeyError "id")
  | Some id =>
      let uid := get_track_id id in
      let fid := get_folder_id id in
      match uid, fid with
      | None, None => inr (DownloadGenericError "Invalid ID")
      | Some uid, _ =>
          match track_table db !! uid with
          | Some rv => inl (Plain (path rv) (mimetype rv) true)
          | None =>
              match album_table db !! uid with
              | Some rv => inl (zipped rv)
              | None => inr (NotFound "Track or Album")
              end
          end
      | None, Some fid =>
          match folder_table db !! fid with
          | Some rv => inl (zipped rv)
          | None => inr (NotFound "Folder")
          end
      end
  end.

End Download.

(** ** [lyrics]: the lyrics files beside the tracks *)

(** A track as the loop of [lyrics] reads it: [track.path], [track.title]
    and [track.album.artist.name]. *)
Record song := {
  song_path : string;
  song_title : string;
  song_album_artist : string
}.

(** A path that exists: what [open(path).read()] does with it. *)
Inductive file :=
| Text (content : string)
| Undecodable               (* [read] raises [UnicodeError] *)
| Unreadable.               (* [open] raises [OSError] *)

(** How the loop of lines 325-342 ends: it returns the formatted lyrics, it
    lets an [OSError] through, or it is left and line 344 is reached. *)
Inductive local_lyrics :=
| LyricsFound (artist title value : string)
| LyricsOSError
| NoLocalLyrics.

(** Line 326. *)
Definition lyrics_path (track_path : string) : string :=
  fst (OsPath.splitext track_path) ++ ".txt".

(** Lines 325-342, over the tracks that the query of line 324 returns, in
    the order it returns them; [fs] holds the paths that exist. *)
Fixpoint lyrics_from_files (fs : gmap string file) (query : list song)
  : local_lyrics :=
  match query with
  | [] => NoLocalLyrics
  | track :: query' =>
      match fs !! lyrics_path (song_path track) with
      | Some (Text content) =>
          LyricsFound (song_album_artist track) (song_title track) content
      | Some Undecodable => lyrics_from_files fs query'
      | Some Unreadable => LyricsOSError
      | None => lyrics_from_files fs query'
      end
  end.

(** ** More data for the examples *)

Definition kind_of_blue : collection :=
  {| coll_name := "Kind of Blue"; coll_tracks := [so_what; flamenco] |}.

Definition example_ids : EntityIds :=
  {| get_track_id := fun s => if is_uuid s then Some s else None;
     get_folder_id := decimal |}.

Definition example_entities : entities :=
  {| track_table := <[id so_what := so_what]> (<[id flamenco := flamenco]> ∅);
     album_table := <["7a1b2c3d-4e5f-4a6b-8c7d-9e0f1a2b3c4d" := kind_of_blue]> ∅;
     folder_table := <[12%Z := kind_of_blue]> ∅ |}.

Definition blank_config : config_t :=
  <["transcoder" := "   "]> (<["decoder" := "flac -d -c %srcpath"]> ∅).

Definition broken_config : config_t :=
  <["transcoder_flac_mp3" := "ffmpeg -i %srcpath -"]>
    (<["decoder" := "flac -d 'unbalanced"]> ∅).

Definition failing_encoder_host : Host :=
  {| py_lower := lower;
     py_int := decimal;
     guess_type := guess_audio;
     shlex_split := Shlex.split;
     popen_ok := fun argv => match argv with
                             | cmd :: _ => negb (String.eqb cmd "lame")
                             | [] => true
                             end |}.

(** ** Predicates on runs, requests and lyrics files *)

(** The count that a state of the generator carries; the states past the
    loop carry none. *)
Definition count_of (st : gen_state) : option Z :=
  match st with
  | NotStarted => Some 0%Z
  | Streaming sent => Some sent
  | _ => None
  end.

(** Nothing was done to the handles between the worlds [w0] and [w']. *)
Definition untouched (w0 w' : world) : Prop :=
  log w' = log w0
  /\ cleanup_actions w' = cleanup_actions w0
  /\ kill_actions w' = kill_actions w0.

(** Between [w0] and [w'] the generator left its [try] statement with the
    outcome [o]: the cleanup ran, after the kills only if [o] is an
    exception. *)
Definition left_by (w0 w' : world) (o : outcome) : Prop :=
  log w' = (log w0 ++ cleanup_actions w0)%list
  \/ (log w' = (log w0 ++ kill_actions w0 ++ cleanup_actions w0)%list
      /\ is_raised o = true).

(** The request with another value of [format]. *)
Definition with_format (req : request) (f : option string) : request :=
  {| has_timeOffset := has_timeOffset req;
     has_size := has_size req;
     maxBitRate := maxBitRate req;
     format := f;
     estimateContentLength := estimateContentLength req |}.

(** A track whose lyrics file is missing or cannot be decoded. *)
Definition without_lyrics (fs : gmap string file) (track : song) : Prop :=
  fs !! lyrics_path (song_path track) = None
  \/ fs !! lyrics_path (song_path track) = Some Undecodable.

Definition example_pipe : list read_result :=
  [Data [Byte.x61]; Data [Byte.x62; Byte.x63]; ReadRaises ExException;
   Data [Byte.x64]].

Definition ending_pipe : list read_result :=
  [Data [Byte.x61]; Data [Byte.x62; Byte.x63]].

Definition plain_template : string := "flac -d -c -".

Definition blue_in_green : song :=
  {| song_path := "/music/Kind of Blue/03 Blue in Green.flac";
     song_title := "Blue in Green";
     song_album_artist := "Miles Davis" |}.

Definition all_blues : song :=
  {| song_path := "/music/Kind of Blue/04 All Blues.flac";
     song_title := "All Blues";
     song_album_artist := "Miles Davis" |}.

Definition example_files : gmap string file :=
  <["/music/Kind of Blue/03 Blue in Green.txt" := Undecodable]>
    (<["/music/Kind of Blue/04 All Blues.txt" := Text "(instrumental)"]> ∅).

(** * Properties *)

(** ** Strings and replacement *)

Lemma append_cons (c : ascii) (s t : string) : String c s ++ t = String c (s ++ t).
Proof. reflexivity. Qed.

(** A text without the character that a placeholder starts with is left
    alone by the replacement of that placeholder. *)
Lemma replace_absent (a : ascii) (old new s : string) :
  Py.contains_char a s = false -> Py.replace (String a old) new s = s.
Proof.
  unfold Py.replace. induction s as [|c s IH]; intros Hs; [reflexivity|].
  simpl in Hs. apply orb_false_iff in Hs as [Hc Hs].
  cbn [Py.replace_from String.prefix].
  destruct (ascii_dec a c) as [->|_].
  - rewrite Ascii.eqb_refl in Hc. discriminate.
  - now rewrite IH.
Qed.

Lemma substitute_cons (k v : string) (subs : list (string * string)) (part : string) :
  substitute ((k, v) :: subs) part = substitute subs (Py.replace k v part).
Proof. reflexivity. Qed.

(** Replacements of placeholders (all start with a percent sign) leave a
    text without percent sign alone. *)
Lemma substitute_absent (subs : list (string * string)) (s : string) :
  Forall (fun kv => exists old, fst kv = String "%" old) subs ->
  Py.contains_char "%" s = false -> substitute subs s = s.
Proof.
  intros Hsubs Hs. induction Hsubs as [|[k v] subs [old Hk] _ IH];
    [reflexivity|].
  simpl in Hk. subst k. rewrite substitute_cons, replace_absent; auto.
Qed.








(** ** [prepare_transcoding_cmdline] *)



(** Blanks, quotes and shell syntax in a value stay inside the argument that
    the template gave to the placeholder. *)
Example values_are_not_tokenized :
  @prepare_transcoding_cmdline example_host (Some tagged_template) shell_title
    "mp3" "ogg" 128
  = Ok (Some ["ffmpeg"; "-i"; "/music/a b.mp3"; "-metadata";
              "title=Don't; rm -rf $HOME"; "-f"; "ogg"; "-"]).
Proof. reflexivity. Qed.

(** A template of blanks alone is tokenized to no argument at all. *)
Example blank_template :
  @prepare_transcoding_cmdline example_host (Some "   ") shell_title
    "mp3" "ogg" 128 = Ok (Some []).
Proof. reflexivity. Qed.

(** ** Negotiation *)

Lemma lower_bitrate_le (pref : option Z) (cur : Z) :
  (lower_bitrate pref cur <= cur)%Z.
Proof.
  unfold lower_bitrate.
  destruct (Py.truthy_int pref && (default 0 pref <? cur)%Z) eqn:E; [|lia].
  apply andb_true_iff in E as [_ E]. apply Z.ltb_lt in E. lia.
Qed.

Lemma lower_bitrate_changes (pref : option Z) (cur : Z) :
  lower_bitrate pref cur <> cur ->
  exists b, pref = Some b /\ (b < cur)%Z /\ lower_bitrate pref cur = b.
Proof.
  unfold lower_bitrate.
  destruct (Py.truthy_int pref && (default 0 pref <? cur)%Z) eqn:E;
    [|congruence].
  apply andb_true_iff in E as [Ht E]. apply Z.ltb_lt in E.
  destruct pref as [b|]; [|discriminate]. intros _. exists b. auto.
Qed.

Lemma cap_bitrate_le `{Host} (config : config_t) (mb : option string)
    (u : bool) (sfx sfx' : string) (rate rate' : Z) :
  cap_bitrate config mb u sfx rate = Ok (sfx', rate') -> (rate' <= rate)%Z.
Proof.
  unfold cap_bitrate. destruct (Py.truthy_str mb); [|intros [= _ <-]; lia].
  destruct (py_int (default "" mb)) as [m|]; [|discriminate].
  destruct ((rate >? m)%Z && negb (m =? 0)%Z) eqn:E; intros [= _ <-]; [|lia].
  apply andb_true_iff in E as [E _]. lia.
Qed.

(** What [negotiate] returns, step by step. *)
Lemma negotiate_steps `{Host} (config : config_t) (prefs : client_prefs)
    (req : request) (res : track) (t : target) :
  negotiate config prefs req res = Ok t ->
  let c := choose_format (request_format req) (pref_format prefs) (suffix res) in
  cap_bitrate config (maxBitRate req) (fst c) (snd c)
              (lower_bitrate (pref_bitrate prefs) (bitrate res))
  = Ok (dst_suffix t, dst_bitrate t)
  /\ dst_mimetype t
     = if negb (String.eqb (dst_suffix t) (suffix res))
       then default "application/octet-stream"
              (Py.or_str (guess_type ("dummyname." ++ dst_suffix t))
                         (Some "application/octet-stream"))
       else mimetype res.
Proof.
  unfold negotiate.
  destruct (choose_format _ _ _) as [u sfx]. simpl.
  destruct (cap_bitrate _ _ _ _ _) as [[sfx' rate']|e]; [|discriminate].
  intros [= <-]. simpl. auto.
Qed.

(** C4.  Precedence in the negotiation.  (a) A request format, which the
    endpoint reads in lower case, decides the target suffix whatever the
    stored preferred format is: the source suffix for [raw], the format
    itself otherwise.  (b) The stored preferred bitrate replaces the bitrate
    only when it is strictly lower, so the target bitrate never exceeds the
    source bitrate.  (c) A [maxBitRate] of zero leaves bitrate and suffix as
    they were before the cap. *)
Theorem negotiate_precedence `{Host} (config : config_t) (prefs : client_prefs)
    (req : request) (res : track) (t : target) :
  negotiate config prefs req res = Ok t ->
  (forall f, format req = Some f -> f <> "" -> py_lower f <> "" ->
     dst_suffix t = if String.eqb (py_lower f) "raw" then suffix res
                    else py_lower f)
  /\ ((lower_bitrate (pref_bitrate prefs) (bitrate res) <= bitrate res)%Z
      /\ (lower_bitrate (pref_bitrate prefs) (bitrate res) <> bitrate res ->
          exists b, pref_bitrate prefs = Some b /\ (b < bitrate res)%Z
                    /\ lower_bitrate (pref_bitrate prefs) (bitrate res) = b)
      /\ (dst_bitrate t <= bitrate res)%Z)
  /\ (forall mb, maxBitRate req = Some mb -> py_int mb = Some 0%Z ->
        dst_bitrate t = lower_bitrate (pref_bitrate prefs) (bitrate res)
        /\ dst_suffix t
           = snd (choose_format (request_format req) (pref_format prefs)
                                (suffix res))).
Proof.
  intros Hn. apply negotiate_steps in Hn as [Hcap _]. simpl in Hcap.
  split; [|split; [split; [|split]|]].
  - intros f Hf Hne Hlow.
    assert (Hrf : request_format req = Some (py_lower f)).
    { unfold request_format. rewrite Hf. destruct f; [congruence|reflexivity]. }
    rewrite Hrf in Hcap. unfold choose_format in Hcap.
    assert (Ht : Py.truthy_str (Some (py_lower f)) = true)
      by (destruct (py_lower f); [congruence|reflexivity]).
    rewrite Ht in Hcap. simpl in Hcap.
    unfold cap_bitrate in Hcap.
    destruct (Py.truthy_str (maxBitRate req)); [|now injection Hcap as <- _].
    destruct (py_int _); [|discriminate].
    destruct (_ && _); now injection Hcap as <- _.
  - apply lower_bitrate_le.
  - apply lower_bitrate_changes.
  - apply cap_bitrate_le in Hcap.
    pose proof (lower_bitrate_le (pref_bitrate prefs) (bitrate res)). lia.
  - intros mb Hmb Hzero. unfold cap_bitrate in Hcap. rewrite Hmb in Hcap.
    destruct (Py.truthy_str (Some mb)); simpl in Hcap;
      [rewrite Hzero, andb_false_r in Hcap|]; now injection Hcap as <- <-.
Qed.

Lemma negotiate_precedence_witness :
  @negotiate example_host example_config ogg_prefs raw_request flamenco
  = Ok {| dst_suffix := "flac"; dst_bitrate := 96; dst_mimetype := "audio/flac" |}
  /\ dst_suffix {| dst_suffix := "flac"; dst_bitrate := 96;
                   dst_mimetype := "audio/flac" |} = "flac".
Proof.
  split; [reflexivity|].
  exact (proj1 (@negotiate_precedence example_host example_config ogg_prefs
                  raw_request flamenco _ eq_refl)
               "raw" eq_refl ltac:(discriminate) ltac:(discriminate)).
Defined.

(** The second example of the spec: 192 kbps flac, [format=raw],
    [maxBitRate=0]. *)
Example negotiate_raw :
  @negotiate example_host example_config no_prefs raw_request flamenco
  = Ok {| dst_suffix := "flac"; dst_bitrate := 192; dst_mimetype := "audio/flac" |}
  /\ @requires_transcode flamenco
       {| dst_suffix := "flac"; dst_bitrate := 192; dst_mimetype := "audio/flac" |}
     = false.
Proof. split; reflexivity. Qed.

(** C5.  A [maxBitRate] that is supplied, not zero and strictly below the
    bitrate reached so far becomes the target bitrate; the target suffix
    becomes the configured default transcode target only when neither a
    request format nor a preferred format was chosen, and stays the source
    suffix when no default is configured; with a chosen format the suffix is
    kept. *)
Theorem negotiate_max_bitrate `{Host} (config : config_t)
    (prefs : client_prefs) (req : request) (res : track) (mb : string) (m : Z) :
  maxBitRate req = Some mb -> mb <> "" -> py_int mb = Some m ->
  m <> 0%Z ->
  (m < lower_bitrate (pref_bitrate prefs) (bitrate res))%Z ->
  exists t,
    negotiate config prefs req res = Ok t
    /\ dst_bitrate t = m
    /\ (Py.truthy_str (request_format req) = false ->
        Py.truthy_str (pref_format prefs) = false ->
        dst_suffix t = match config !! "default_transcode_target" with
                       | Some d => if String.eqb d "" then suffix res else d
                       | None => suffix res
                       end)
    /\ (Py.truthy_str (request_format req) = true
        \/ Py.truthy_str (pref_format prefs) = true ->
        dst_suffix t
        = snd (choose_format (request_format req) (pref_format prefs)
                             (suffix res))).
Proof.
  intros Hmb Hne Hint Hm0 Hlt.
  unfold negotiate.
  destruct (choose_format _ _ _) as [u sfx] eqn:Hc.
  unfold cap_bitrate. rewrite Hmb.
  assert (Ht : Py.truthy_str (Some mb) = true)
    by (destruct mb; [congruence|reflexivity]).
  rewrite Ht. simpl default. rewrite Hint.
  assert (Hg : ((lower_bitrate (pref_bitrate prefs) (bitrate res) >? m)%Z
                && negb (m =? 0)%Z) = true).
  { apply andb_true_iff. split; [lia|]. apply negb_true_iff. lia. }
  rewrite Hg. eexists. split; [reflexivity|]. simpl. split; [reflexivity|].
  unfold choose_format in Hc. split.
  - intros Hrf Hpf. rewrite Hrf, Hpf in Hc. injection Hc as <- <-.
    unfold Py.or_str.
    destruct (config !! "default_transcode_target") as [[|c d]|]; reflexivity.
  - intros Hor.
    destruct (Py.truthy_str (request_format req)).
    + now injection Hc as <- <-.
    + destruct Hor as [Hor|Hor]; [discriminate|]. rewrite Hor in Hc.
      now injection Hc as <- <-.
Qed.

(** The first example of the spec: 320 kbps mp3, no request format, no
    preferences, [maxBitRate=128]. *)
Lemma negotiate_max_bitrate_witness :
  exists t,
    @negotiate example_host example_config no_prefs capped_request so_what = Ok t
    /\ dst_bitrate t = 128%Z
    /\ dst_suffix t = "ogg".
Proof.
  destruct (@negotiate_max_bitrate example_host example_config no_prefs
              capped_request so_what "128" 128 eq_refl ltac:(discriminate)
              eq_refl ltac:(discriminate) eq_refl)
    as (t & Hn & Hb & Hdef & _).
  exists t. split; [exact Hn|]. split; [exact Hb|].
  exact (Hdef eq_refl eq_refl).
Defined.

(** ** The endpoint: passthrough and transcoding branch *)

Lemma requires_transcode_iff (res : track) (t : target) :
  requires_transcode res t = true
  <-> dst_suffix t <> suffix res \/ dst_bitrate t <> bitrate res.
Proof.
  unfold requires_transcode. rewrite orb_true_iff, !negb_true_iff.
  rewrite Z.eqb_neq. 
  destruct (String.eqb_spec (dst_suffix t) (suffix res)); intuition congruence.
Qed.

(** C6.  The endpoint enters the transcoding branch, whose first step is
    the cache lookup, exactly when the negotiated suffix or bitrate differs
    from the source; otherwise it answers with the source file itself, sent
    with conditional (and range) handling and the source mimetype, and does
    nothing else: no cache access and no process. *)
Theorem stream_media_passthrough `{Host} (config : config_t) (cache : cache_t)
    (prefs : client_prefs) (req : request) (res : track) (t : target) :
  has_timeOffset req = false -> has_size req = false ->
  negotiate config prefs req res = Ok t ->
  (requires_transcode res t = true
   <-> dst_suffix t <> suffix res \/ dst_bitrate t <> bitrate res)
  /\ (dst_suffix t = suffix res /\ dst_bitrate t = bitrate res ->
      stream_media config cache prefs req res
      = ([], Ok (SendFile (path res) (mimetype res) true)))
  /\ (dst_suffix t <> suffix res \/ dst_bitrate t <> bitrate res ->
      exists fx r,
        stream_media config cache prefs req res
        = (CacheGet (cache_key (id res) (dst_bitrate t) (dst_suffix t)) :: fx, r)).
Proof.
  intros Hto Hsz Hn. split; [apply requires_transcode_iff|].
  unfold stream_media. rewrite Hto, Hsz, Hn. split.
  - intros [Hs Hb].
    assert (Hr : requires_transcode res t = false).
    { destruct (requires_transcode res t) eqn:E; [|reflexivity].
      apply requires_transcode_iff in E. tauto. }
    rewrite Hr. apply negotiate_steps in Hn as [_ Hm].
    rewrite Hm, Hs, String.eqb_refl. reflexivity.
  - intros Hd. apply requires_transcode_iff in Hd. rewrite Hd.
    destruct (cache !! _) as [file|]; [eauto|].
    destruct (on_cache_miss _ _ _ _ _) as [fx r]. eauto.
Qed.

Lemma stream_media_passthrough_witness :
  @stream_media example_host example_config ∅ no_prefs raw_request flamenco
  = ([], Ok (SendFile "/music/Kind of Blue/05 Flamenco Sketches.flac"
                      "audio/flac" true)).
Proof.
  exact (proj1 (proj2 (@stream_media_passthrough example_host example_config ∅
                         no_prefs raw_request flamenco _ eq_refl eq_refl eq_refl))
               (conj eq_refl eq_refl)).
Defined.

(** ** The cache key *)

Lemma append_same_length_inj (a b x y : string) :
  String.length a = String.length b -> a ++ x = b ++ y -> a = b /\ x = y.
Proof.
  revert b. induction a as [|c a IH]; intros [|d b] Hl Heq;
    simpl in Hl; try discriminate.
  - auto.
  - rewrite !append_cons in Heq. injection Heq as -> Heq.
    destruct (IH b) as [-> ->]; auto.
Qed.

Lemma append_separator_inj (sep : ascii) (a b x y : string) :
  Py.contains_char sep a = false -> Py.contains_char sep b = false ->
  a ++ String sep x = b ++ String sep y -> a = b /\ x = y.
Proof.
  revert b. induction a as [|c a IH]; intros [|d b] Ha Hb Heq;
    rewrite ?append_cons in Heq; simpl in Ha, Hb.
  - change (String sep x = String sep y) in Heq. now injection Heq as ->.
  - change (String sep x = String d (b ++ String sep y)) in Heq.
    injection Heq as <- _. now rewrite Ascii.eqb_refl in Hb.
  - change (String c (a ++ String sep x) = String sep y) in Heq.
    injection Heq as -> _. now rewrite Ascii.eqb_refl in Ha.
  - injection Heq as -> Heq.
    apply orb_false_iff in Ha as [_ Ha]. apply orb_false_iff in Hb as [_ Hb].
    destruct (IH b) as [-> ->]; auto.
Qed.

Lemma uint_no_dot (d : Decimal.uint) :
  Py.contains_char "." (NilEmpty.string_of_uint d) = false.
Proof. induction d; simpl; auto. Qed.

Lemma str_int_no_dot (n : Z) : Py.contains_char "." (Py.str_int n) = false.
Proof.
  unfold Py.str_int, NilZero.string_of_int, NilZero.string_of_uint.
  destruct (Z.to_int n) as [d|d]; destruct d; simpl; auto using uint_no_dot.
Qed.

Lemma to_int_proper (n : Z) :
  Z.to_int n <> Decimal.Pos Decimal.Nil /\ Z.to_int n <> Decimal.Neg Decimal.Nil.
Proof.
  destruct n as [|p|p]; simpl; split; try discriminate;
    intros [= E]; now apply DecimalPos.Unsigned.to_uint_nonnil in E.
Qed.

Lemma str_int_inj (a b : Z) : Py.str_int a = Py.str_int b -> a = b.
Proof.
  unfold Py.str_int. intros E.
  destruct (to_int_proper a) as [Ha1 Ha2], (to_int_proper b) as [Hb1 Hb2].
  pose proof (NilZero.isi _ Ha1 Ha2) as Ia.
  pose proof (NilZero.isi _ Hb1 Hb2) as Ib.
  rewrite E, Ib in Ia. injection Ia as Ia.
  rewrite <- (DecimalZ.of_to a), <- (DecimalZ.of_to b). now rewrite Ia.
Qed.

Lemma uuid_shape_length (pos : nat) (s : string) :
  uuid_shape pos s = true -> pos + String.length s = 36.
Proof.
  revert pos. induction s as [|c s IH]; intros pos Hs; simpl in Hs.
  - apply Nat.eqb_eq in Hs. simpl. lia.
  - apply andb_true_iff in Hs as [_ Hs]. apply IH in Hs. simpl. lia.
Qed.

Lemma cache_key_inj (id1 id2 : string) (b1 b2 : Z) (s1 s2 : string) :
  String.length id1 = String.length id2 ->
  cache_key id1 b1 s1 = cache_key id2 b2 s2 ->
  id1 = id2 /\ b1 = b2 /\ s1 = s2.
Proof.
  unfold cache_key. intros Hl Hk.
  apply append_same_length_inj in Hk as [-> Hk]; [|exact Hl].
  change (String "-" (Py.str_int b1 ++ String "." s1)
          = String "-" (Py.str_int b2 ++ String "." s2)) in Hk.
  injection Hk as Hk.
  apply append_separator_inj in Hk as [Hb ->]; auto using str_int_no_dot.
  apply str_int_inj in Hb. auto.
Qed.

(** The only key the endpoint ever hands to the cache. *)
Lemma stream_media_keys `{Host} (config : config_t) (cache : cache_t)
    (prefs : client_prefs) (req : request) (res : track)
    (fx : list effect) (r : result response) (key : string) :
  stream_media config cache prefs req res = (fx, r) ->
  In (CacheGet key) fx \/ In (CacheSetGenerated key) fx ->
  exists t, negotiate config prefs req res = Ok t
            /\ key = cache_key (id res) (dst_bitrate t) (dst_suffix t).
Proof.
  unfold stream_media.
  destruct (has_timeOffset req); [intros [= <- _] [[]|[]]|].
  destruct (has_size req); [intros [= <- _] [[]|[]]|].
  destruct (negotiate config prefs req res) as [t|e];
    [|intros [= <- _] [[]|[]]].
  destruct (requires_transcode res t); [|intros [= <- _] [[]|[]]].
  intros Hfx Hin. exists t. split; [reflexivity|].
  destruct (cache !! _) as [file|].
  - injection Hfx as <- _. destruct Hin as [[E|[]]|[E|[]]]; congruence.
  - unfold on_cache_miss in Hfx.
    destruct (select_templates _ _ _) as [tpls|e].
    2:{ injection Hfx as <- _. destruct Hin as [[E|[]]|[E|[]]]; congruence. }
    destruct (prepare_all _ _ _ _ _) as [[[tc dc] ec]|e].
    2:{ injection Hfx as <- _. destruct Hin as [[E|[]]|[E|[]]]; congruence. }
    assert (Hsp : forall k, ~ In (CacheGet k) (fst (start_processes tc dc ec))
                        /\ ~ In (CacheSetGenerated k) (fst (start_processes tc dc ec))).
    { intros k. unfold start_processes, popen.
      destruct (Py.truthy_list tc).
      - destruct tc as [[|a tc]|]; simpl; try tauto.
        destruct (popen_ok _); simpl; intuition congruence.
      - destruct dc as [[|a dc]|]; simpl; try tauto.
        destruct (popen_ok (a :: dc)); simpl; [|intuition congruence].
        destruct ec as [[|b ec]|]; simpl; try (intuition congruence).
        destruct (popen_ok (b :: ec)); simpl; intuition congruence. }
    destruct (start_processes tc dc ec) as [fx' [hd|e]]; simpl in Hsp;
      injection Hfx as <- _.
    + destruct Hin as [[E|Hin]|[E|Hin]]; try congruence.
      * apply in_app_or in Hin as [Hin|[E|[]]]; [|discriminate].
        now apply (Hsp key) in Hin.
      * apply in_app_or in Hin as [Hin|[E|[]]]; [|congruence].
        now apply (Hsp key) in Hin.
    + destruct Hin as [[E|Hin]|[E|Hin]]; try congruence;
        now apply (Hsp key) in Hin.
Qed.

(** C8.  The cache key is a function of the track identifier, the target
    bitrate and the target suffix alone: equal triples give equal keys, and
    triples that differ in a field give different keys.  Whatever else the
    request carries, the key the endpoint uses is the key of its track and
    of the negotiated bitrate and suffix. *)
Theorem cache_key_fingerprint `{Host} (id1 id2 : string) (b1 b2 : Z)
    (s1 s2 : string) :
  is_uuid id1 = true -> is_uuid id2 = true ->
  (cache_key id1 b1 s1 = cache_key id2 b2 s2
   <-> id1 = id2 /\ b1 = b2 /\ s1 = s2)
  /\ (forall config cache prefs req res fx r key,
        stream_media config cache prefs req res = (fx, r) ->
        In (CacheGet key) fx \/ In (CacheSetGenerated key) fx ->
        exists t, negotiate config prefs req res = Ok t
                  /\ key = cache_key (id res) (dst_bitrate t) (dst_suffix t)).
Proof.
  intros H1 H2. split; [split|].
  - apply cache_key_inj.
    apply uuid_shape_length in H1, H2. simpl in H1, H2. congruence.
  - now intros (-> & -> & ->).
  - intros. eapply stream_media_keys; eauto.
Qed.

Lemma cache_key_fingerprint_witness :
  is_uuid (id so_what) = true /\ is_uuid (id flamenco) = true
  /\ cache_key (id so_what) 128 "ogg" <> cache_key (id flamenco) 128 "ogg".
Proof.
  split; [reflexivity|]. split; [reflexivity|].
  intros E.
  apply (proj1 (@cache_key_fingerprint example_host (id so_what) (id flamenco)
                  128 128 "ogg" "ogg" eq_refl eq_refl)) in E.
  destruct E as [E _]. discriminate E.
Defined.

(** ** Choice of the transcoding commands *)

Lemma prepare_falsy `{Host} (x : option string) (res : track) (i o : string)
    (r : Z) :
  Py.truthy_str x = false -> prepare_transcoding_cmdline x res i o r = Ok None.
Proof. unfold prepare_transcoding_cmdline. now intros ->. Qed.

Lemma popen_started `{Host} (who : proc_id) (a : string) (argv : list string) :
  popen_ok (a :: argv) = true ->
  popen who (Some (a :: argv)) = ([Popen who (a :: argv)], Ok tt).
Proof. unfold popen. now intros ->. Qed.

(** C7.  On a cache miss the commands are chosen in this order: (1) the
    transcoder configured for the pair of suffixes, run alone; (2) else the
    decoder of the source suffix (or the generic decoder) piped into the
    encoder of the target suffix (or the generic encoder), when both are
    configured; (3) else the generic transcoder, run alone; (4) else the
    request fails with the error that names the two suffixes, and nothing
    was started.  Templates are taken to tokenize to a command with at least
    a program name, and the operating system to start the commands. *)
Theorem transcoder_selection `{Host} (config : config_t) (req : request)
    (res : track) (t : target) (key : string) :
  let src := suffix res in
  let dst := dst_suffix t in
  let render x :=
    prepare_transcoding_cmdline x res src dst (dst_bitrate t) in
  let T := config !! ("transcoder_" ++ src ++ "_" ++ dst) in
  let D := Py.or_str (config !! ("decoder_" ++ src)) (config !! "decoder") in
  let E := Py.or_str (config !! ("encoder_" ++ dst)) (config !! "encoder") in
  let G := config !! "transcoder" in
  let estimate :=
    compute_estimate (estimateContentLength req) (dst_bitrate t) (duration res) in
  (forall p tc rd re,
     Py.truthy_str T = true ->
     render T = Ok (Some (p :: tc)) -> render D = Ok rd -> render E = Ok re ->
     popen_ok (p :: tc) = true ->
     on_cache_miss config req res t key
     = ([Popen Proc (p :: tc); CacheSetGenerated key],
        Ok (Stream key false estimate (dst_mimetype t) estimate)))
  /\ (forall p dc q ec,
        Py.truthy_str T = false ->
        Py.truthy_str D = true -> Py.truthy_str E = true ->
        render D = Ok (Some (p :: dc)) -> render E = Ok (Some (q :: ec)) ->
        popen_ok (p :: dc) = true -> popen_ok (q :: ec) = true ->
        on_cache_miss config req res t key
        = ([Popen DecProc (p :: dc); Popen Proc (q :: ec); CacheSetGenerated key],
           Ok (Stream key true estimate (dst_mimetype t) estimate)))
  /\ (forall p gc rd re,
        Py.truthy_str T = false ->
        Py.truthy_str D = false \/ Py.truthy_str E = false ->
        Py.truthy_str G = true ->
        render G = Ok (Some (p :: gc)) -> render D = Ok rd -> render E = Ok re ->
        popen_ok (p :: gc) = true ->
        on_cache_miss config req res t key
        = ([Popen Proc (p :: gc); CacheSetGenerated key],
           Ok (Stream key false estimate (dst_mimetype t) estimate)))
  /\ (Py.truthy_str T = false ->
      Py.truthy_str D = false \/ Py.truthy_str E = false ->
      Py.truthy_str G = false ->
      on_cache_miss config req res t key
      = ([], Error (GenericError
                      ("No way to transcode from " ++ src ++ " to " ++ dst)))).
Proof.
  intros src dst render T D E G estimate.
  repeat split.
  - intros p tc rd re HT HrT HrD HrE Hok.
    unfold on_cache_miss, select_templates.
    fold src dst T D E. rewrite HT. simpl negb. simpl andb. cbv iota.
    unfold prepare_all. fold src dst. fold (render T) (render D) (render E).
    rewrite HrT, HrD, HrE.
    unfold start_processes. simpl Py.truthy_list. cbv iota.
    rewrite popen_started by exact Hok. reflexivity.
  - intros p dc q ec HT HD HE HrD HrE Hokd Hoke.
    unfold on_cache_miss, select_templates.
    fold src dst T D E. rewrite HT, HD, HE. simpl. 
    unfold prepare_all. fold src dst. fold (render T) (render D) (render E).
    unfold render at 1. rewrite prepare_falsy by exact HT.
    rewrite HrD, HrE.
    unfold start_processes. simpl Py.truthy_list. cbv iota.
    rewrite !popen_started by assumption. reflexivity.
  - intros p gc rd re HT HDE HG HrG HrD HrE Hok.
    unfold on_cache_miss, select_templates.
    fold src dst T D E G. rewrite HT, HG.
    assert (Hc : negb (Py.truthy_str D) || negb (Py.truthy_str E) = true)
      by (destruct HDE as [-> | ->]; simpl; auto using orb_true_r).
    rewrite Hc. simpl.
    unfold prepare_all. fold src dst. fold (render G) (render D) (render E).
    rewrite HrG, HrD, HrE.
    unfold start_processes. simpl Py.truthy_list. cbv iota.
    rewrite popen_started by exact Hok. reflexivity.
  - intros HT HDE HG.
    unfold on_cache_miss, select_templates.
    fold src dst T D E G. rewrite HT, HG.
    assert (Hc : negb (Py.truthy_str D) || negb (Py.truthy_str E) = true)
      by (destruct HDE as [-> | ->]; simpl; auto using orb_true_r).
    rewrite Hc. reflexivity.
Qed.

Lemma transcoder_selection_witness :
  @on_cache_miss example_host piped_config mp3_request flamenco
    {| dst_suffix := "mp3"; dst_bitrate := 192; dst_mimetype := "audio/mpeg" |}
    "0c5d7e90-aa41-4c2b-9d0e-5b6f7a8c9d01-192.mp3"
  = ([Popen DecProc
        ["flac"; "-d"; "-c"; "/music/Kind of Blue/05 Flamenco Sketches.flac"];
      Popen Proc ["lame"; "-b"; "192"; "-"; "-"];
      CacheSetGenerated "0c5d7e90-aa41-4c2b-9d0e-5b6f7a8c9d01-192.mp3"],
     Ok (Stream "0c5d7e90-aa41-4c2b-9d0e-5b6f7a8c9d01-192.mp3" true None
                "audio/mpeg" None)).
Proof.
  exact (proj1 (proj2 (@transcoder_selection example_host piped_config
                         mp3_request flamenco
                         {| dst_suffix := "mp3"; dst_bitrate := 192;
                            dst_mimetype := "audio/mpeg" |}
                         "0c5d7e90-aa41-4c2b-9d0e-5b6f7a8c9d01-192.mp3"))
               _ _ _ _ eq_refl eq_refl eq_refl eq_refl eq_refl eq_refl eq_refl).
Defined.

(** Without any configured command the request for a transcoded stream
    fails after the cache lookup, before any process. *)
Example no_way_to_transcode :
  @stream_media example_host ∅ ∅ no_prefs mp3_request flamenco
  = ([CacheGet "0c5d7e90-aa41-4c2b-9d0e-5b6f7a8c9d01-192.mp3"],
     Error (GenericError "No way to transcode from flac to mp3")).
Proof. reflexivity. Qed.

(** ** The generator: cleanup *)

Lemma finally_released (w : world) : released (finally w) = true.
Proof. unfold released, finally. now destruct (dec_proc w). Qed.

Lemma finally_log (w : world) :
  log (finally w) = (log w ++ cleanup_actions w)%list.
Proof. unfold finally, cleanup_actions. now destruct (dec_proc w). Qed.

Lemma kill_processes_log (w : world) :
  log (kill_processes w) = (log w ++ kill_actions w)%list.
Proof. unfold kill_processes, kill_actions. now destruct (dec_proc w). Qed.

Lemma kill_processes_cleanup (w : world) :
  cleanup_actions (kill_processes w) = cleanup_actions w.
Proof. unfold kill_processes, cleanup_actions. now destruct (dec_proc w). Qed.

(** Reading the pipe touches neither the handles nor the log. *)
Lemma transcode_frame (w w' : world) (c : chunk) :
  transcode w = (c, w') ->
  dec_proc w' = dec_proc w /\ proc w' = proc w /\ log w' = log w.
Proof.
  unfold transcode.
  destruct (pipe w) as [|[[|b data]|e] rest]; intros [= <- <-]; auto.
Qed.

Lemma transcode_cleanup (w w' : world) (c : chunk) :
  transcode w = (c, w') -> cleanup_actions w' = cleanup_actions w.
Proof.
  intros Ht. apply transcode_frame in Ht as (Hd & _ & _).
  unfold cleanup_actions. now rewrite Hd.
Qed.

Lemma transcode_kill (w w' : world) (c : chunk) :
  transcode w = (c, w') -> kill_actions w' = kill_actions w.
Proof.
  intros Ht. apply transcode_frame in Ht as (Hd & _ & _).
  unfold kill_actions. now rewrite Hd.
Qed.






(** A finished generator does nothing any more. *)
Lemma run_finished (estimate : option Z) (w : world) (ss : list signal) :
  fst (run estimate Finished w ss) = (Finished, w).
Proof.
  induction ss as [|[|e] ss IH]; [reflexivity| |]; cbn [run handle_transcoding];
    destruct (run estimate Finished w ss) as [[st' w'] os]; exact IH.
Qed.



(** ** The test [sent >= estimate * 0.95]

    For estimates below [2^48] bytes the test in double precision decides
    exactly whether [sent] is at least 95% of the estimate. *)

Section Rounding.
Local Open Scope Z_scope.









End Rounding.

(** ** The generator: cancellation *)

Lemma set_pipe_same (w : world) (p : list read_result) :
  pipe w = p -> set_pipe w p = w.
Proof. destruct w. simpl. now intros ->. Qed.




(** At the threshold itself the cancellation is ignored, one byte below it
    is not. *)
Example threshold_boundary :
  near_the_end (Some 1000000%Z) 950000 = Some true
  /\ near_the_end (Some 1000000%Z) 949999 = Some false.
Proof. split; reflexivity. Qed.


(** ** The generator without an estimate *)

Lemma never_draining (st st' : gen_state) (s : signal) (w w' : world)
    (o : outcome) :
  handle_transcoding None st s w = (st', w', o) ->
  st <> Draining -> st' <> Draining.
Proof.
  intros Hstep Hst.
  assert (Hloop : forall sent, loop None sent w = (st', w', o) -> st' <> Draining).
  { intros sent. unfold loop, except, leave.
    destruct (transcode w) as [[data| |[]] w1]; simpl; intros [= <- _ _];
      discriminate. }
  destruct st as [|sent| |]; [| | congruence |];
    destruct s as [|e]; simpl in Hstep; eauto;
    try (injection Hstep as <- _ _; discriminate).
  unfold except, leave in Hstep. destruct e; simpl in Hstep;
    injection Hstep as <- _ _; discriminate.
Qed.

Lemma run_never_draining (st : gen_state) (w : world) (ss : list signal) :
  st <> Draining -> fst (fst (run None st w ss)) <> Draining.
Proof.
  revert st w. induction ss as [|s ss IH]; intros st w Hst; [exact Hst|].
  cbn [run].
  destruct (handle_transcoding None st s w) as [[st1 w1] o1] eqn:Hstep.
  specialize (IH st1 w1 (never_draining _ _ _ _ _ _ Hstep Hst)).
  destruct (run None st1 w1 ss) as [[st2 w2] os]. exact IH.
Qed.

(** The estimate that a streamed response carries. *)
Lemma stream_media_estimate `{Host} (config : config_t) (cache : cache_t)
    (prefs : client_prefs) (req : request) (res : track) (fx : list effect)
    (key : string) (has_dec : bool) (estimate cl : option Z) (mime : string) :
  stream_media config cache prefs req res
  = (fx, Ok (Stream key has_dec estimate mime cl)) ->
  exists t, negotiate config prefs req res = Ok t
            /\ estimate = compute_estimate (estimateContentLength req)
                                           (dst_bitrate t) (duration res)
            /\ cl = estimate.
Proof.
  unfold stream_media.
  destruct (has_timeOffset req); [discriminate|].
  destruct (has_size req); [discriminate|].
  destruct (negotiate config prefs req res) as [t|e]; [|discriminate].
  destruct (requires_transcode res t); [|discriminate].
  destruct (cache !! _) as [file|]; [discriminate|].
  unfold on_cache_miss.
  destruct (select_templates _ _ _) as [tpls|e]; [|discriminate].
  destruct (prepare_all _ _ _ _ _) as [[[tc dc] ec]|e]; [|discriminate].
  destruct (start_processes tc dc ec) as [fx' [hd|e]]; [|discriminate].
  intros [= _ _ _ <- _ <-]. eauto.
Qed.

(** C10.  A request whose [estimateContentLength] is not the string
    [true] gets no estimate, also in the response the endpoint builds; the
    generator then never ignores a cancellation: wherever it is in its loop,
    the processes are killed, the cleanup runs and the cancellation is raised
    again, and no run of the generator ever reaches the draining branch. *)
Theorem no_estimate_no_drain `{Host} (ecl : option string) (rate dur : Z) :
  ecl <> Some "true" ->
  compute_estimate ecl rate dur = None
  /\ (forall config cache prefs req res fx key has_dec estimate mime cl,
        estimateContentLength req = ecl ->
        stream_media config cache prefs req res
        = (fx, Ok (Stream key has_dec estimate mime cl)) ->
        estimate = None)
  /\ (forall sent w,
        handle_transcoding (compute_estimate ecl rate dur) (Streaming sent)
          (Throw ExGeneratorExit) w
        = (Finished, finally (kill_processes w), Raised ExGeneratorExit)
        /\ log (finally (kill_processes w))
           = (log w ++ kill_actions w ++ cleanup_actions w)%list)
  /\ (forall w ss,
        fst (fst (run (compute_estimate ecl rate dur) NotStarted w ss))
        <> Draining).
Proof.
  intros Hecl.
  assert (Hnone : forall r d, compute_estimate ecl r d = None).
  { intros r d. unfold compute_estimate. destruct ecl as [s|]; [|reflexivity].
    destruct (String.eqb_spec s "true"); [congruence|reflexivity]. }
  split; [apply Hnone|]. split; [|split].
  - intros config cache prefs req res fx key has_dec estimate mime cl Hreq Hs.
    apply stream_media_estimate in Hs as (t & _ & -> & _).
    rewrite Hreq. apply Hnone.
  - intros sent w. rewrite Hnone. split; [reflexivity|].
    now rewrite finally_log, kill_processes_log, kill_processes_cleanup,
      <- app_assoc.
  - intros w ss. rewrite Hnone. now apply run_never_draining.
Qed.

Lemma no_estimate_no_drain_witness :
  compute_estimate (Some "True") 128 545 = None
  /\ handle_transcoding (compute_estimate (Some "True") 128 545)
       (Streaming 8000000) (Throw ExGeneratorExit) (initial_world false [])
     = (Finished, finally (kill_processes (initial_world false [])),
        Raised ExGeneratorExit).
Proof.
  pose proof (@no_estimate_no_drain example_host (Some "True") 128 545
                ltac:(discriminate)) as (Hnone & _ & Hcancel & _).
  split; [exact Hnone|].
  exact (proj1 (Hcancel 8000000%Z (initial_world false []))).
Defined.

(** ** Several requests for one key *)









(** ** The generator: what reaches the consumer *)

Lemma finally_pipe (w : world) : pipe (finally w) = pipe w.
Proof. unfold finally. now destruct (dec_proc w). Qed.

Lemma kill_processes_pipe (w : world) : pipe (kill_processes w) = pipe w.
Proof. unfold kill_processes. now destruct (dec_proc w). Qed.

Lemma delivered_app (a b : list read_result) :
  delivered (a ++ b) = (delivered a ++ delivered b)%list.
Proof.
  induction a as [|[[|x d]|e] a IH]; simpl; auto. now rewrite IH.
Qed.

Lemma yielded_cons (o : outcome) (os : list outcome) :
  yielded (o :: os) = (yielded [o] ++ yielded os)%list.
Proof. now destruct o. Qed.

(** One read: the pipe loses its head, and a chunk is what the head
    delivers. *)
Lemma transcode_reads (w w1 : world) (c : chunk) :
  transcode w = (c, w1) ->
  exists consumed,
    pipe w = (consumed ++ pipe w1)%list
    /\ delivered consumed = match c with Chunk data => [data] | _ => [] end.
Proof.
  unfold transcode.
  destruct (pipe w) as [|[[|b data]|e] rest] eqn:Hp; intros [= <- <-].
  - exists []. now rewrite Hp.
  - now exists [Data []].
  - now exists [Data (b :: data)].
  - now exists [ReadRaises e].
Qed.

Lemma drain_reads (w w' : world) (st' : gen_state) (o : outcome) :
  drain w = (st', w', o) ->
  exists consumed,
    pipe w = (consumed ++ pipe w')%list /\ yielded [o] = delivered consumed.
Proof.
  unfold drain, leave.
  destruct (transcode w) as [[data| |e] w1] eqn:Ht;
    apply transcode_reads in Ht as (consumed & Hp & Hd);
    intros [= <- <- <-]; exists consumed; rewrite ?finally_pipe; auto.
Qed.

Lemma except_reads (estimate : option Z) (sent : Z) (e : exn) (w w' : world)
    (st' : gen_state) (o : outcome) :
  except estimate sent e w = (st', w', o) ->
  exists consumed,
    pipe w = (consumed ++ pipe w')%list /\ yielded [o] = delivered consumed.
Proof.
  unfold except, leave.
  destruct e;
    try (intros [= <- <- <-]; exists [];
         now rewrite finally_pipe, ?kill_processes_pipe).
  destruct (near_the_end estimate sent) as [[|]|];
    try (intros [= <- <- <-]; exists [];
         now rewrite finally_pipe, ?kill_processes_pipe).
  apply drain_reads.
Qed.

Lemma loop_reads (estimate : option Z) (sent : Z) (w w' : world)
    (st' : gen_state) (o : outcome) :
  loop estimate sent w = (st', w', o) ->
  exists consumed,
    pipe w = (consumed ++ pipe w')%list /\ yielded [o] = delivered consumed.
Proof.
  unfold loop, leave.
  destruct (transcode w) as [[data| |e] w1] eqn:Ht;
    apply transcode_reads in Ht as (consumed & Hp & Hd).
  - intros [= <- <- <-]. now exists consumed.
  - intros [= <- <- <-]. exists consumed. now rewrite finally_pipe.
  - intros Hex. apply except_reads in Hex as (more & Hp' & Hy).
    exists (consumed ++ more)%list. split.
    + now rewrite <- app_assoc, <- Hp'.
    + now rewrite delivered_app, Hd.
Qed.

Lemma handle_transcoding_reads (estimate : option Z) (st st' : gen_state)
    (s : signal) (w w' : world) (o : outcome) :
  handle_transcoding estimate st s w = (st', w', o) ->
  exists consumed,
    pipe w = (consumed ++ pipe w')%list /\ yielded [o] = delivered consumed.
Proof.
  destruct st as [|sent| |], s as [|e]; simpl;
    eauto using loop_reads, except_reads, drain_reads;
    try (intros [= <- <- <-]; exists []; now rewrite ?finally_pipe).
Qed.

(** X1.  Whatever the consumer does, the chunks it has received are, in
    order, the chunks that the reads of the pipe delivered so far: none is
    made up, repeated, reordered or held back. *)
Theorem yielded_is_what_was_read (estimate : option Z) (st st' : gen_state)
    (w w' : world) (ss : list signal) (os : list outcome) :
  run estimate st w ss = (st', w', os) ->
  exists consumed,
    pipe w = (consumed ++ pipe w')%list /\ yielded os = delivered consumed.
Proof.
  revert st w os. induction ss as [|s ss IH]; intros st w os.
  - intros [= <- <- <-]. now exists [].
  - cbn [run].
    destruct (handle_transcoding estimate st s w) as [[st1 w1] o1] eqn:Hstep.
    destruct (run estimate st1 w1 ss) as [[st2 w2] os2] eqn:Hrun.
    intros [= <- <- <-].
    apply handle_transcoding_reads in Hstep as (c1 & Hp1 & Hy1).
    apply IH in Hrun as (c2 & Hp2 & Hy2).
    exists (c1 ++ c2)%list. split.
    + now rewrite <- app_assoc, <- Hp2.
    + now rewrite yielded_cons, delivered_app, Hy1, Hy2.
Qed.

Lemma yielded_is_what_was_read_witness :
  exists consumed,
    example_pipe = (consumed ++ [Data [Byte.x64]])%list
    /\ [[Byte.x61]; [Byte.x62; Byte.x63]] = delivered consumed.
Proof.
  exact (yielded_is_what_was_read (Some 1000%Z) NotStarted Finished
           (initial_world true example_pipe) _ [Next; Next; Next]
           [Yielded [Byte.x61]; Yielded [Byte.x62; Byte.x63];
            Raised ExException]
           eq_refl).
Defined.

(** ** The generator: the count of bytes sent *)

Lemma drain_count (w w' : world) (st' : gen_state) (o : outcome) :
  drain w = (st', w', o) -> count_of st' = None.
Proof.
  unfold drain, leave.
  destruct (transcode w) as [[data| |e] w1]; now intros [= <- _ _].
Qed.

Lemma except_count (estimate : option Z) (sent : Z) (e : exn) (w w' : world)
    (st' : gen_state) (o : outcome) :
  except estimate sent e w = (st', w', o) -> count_of st' = None.
Proof.
  unfold except, leave.
  destruct e; try now intros [= <- _ _].
  destruct (near_the_end estimate sent) as [[|]|]; try now intros [= <- _ _].
  apply drain_count.
Qed.

Lemma loop_count (estimate : option Z) (sent sent' : Z) (w w' : world)
    (st' : gen_state) (o : outcome) :
  loop estimate sent w = (st', w', o) ->
  count_of st' = Some sent' ->
  sent' = (sent + total_length (yielded [o]))%Z.
Proof.
  unfold loop, leave.
  destruct (transcode w) as [[data| |e] w1].
  - intros [= <- _ <-] [= <-]. simpl. lia.
  - intros [= <- _ _]. discriminate.
  - intros Hex Hc. apply except_count in Hex. congruence.
Qed.

(** Only the loop keeps a count, and it adds the length of what it yields. *)
Lemma handle_transcoding_count (estimate : option Z) (st st' : gen_state)
    (s : signal) (w w' : world) (o : outcome) (sent' : Z) :
  handle_transcoding estimate st s w = (st', w', o) ->
  count_of st' = Some sent' ->
  exists sent, count_of st = Some sent
               /\ sent' = (sent + total_length (yielded [o]))%Z.
Proof.
  destruct st as [|sent| |], s as [|e]; simpl; intros Hstep Hc;
    try (injection Hstep as <- _ _; discriminate).
  - exists 0%Z. eauto using loop_count.
  - exists sent. eauto using loop_count.
  - apply except_count in Hstep. congruence.
  - apply drain_count in Hstep. congruence.
Qed.

Lemma total_length_app (a b : list (list Byte.byte)) :
  total_length (a ++ b) = (total_length a + total_length b)%Z.
Proof. induction a as [|x a IH]; simpl; [reflexivity|]. rewrite IH. lia. Qed.

(** X2.  While the generator is in its loop, [sent] is the number of bytes
    it has yielded since it was started. *)
Theorem sent_counts_yielded_bytes (estimate : option Z) (w w' : world)
    (ss : list signal) (os : list outcome) (sent : Z) :
  run estimate NotStarted w ss = (Streaming sent, w', os) ->
  sent = total_length (yielded os)
  /\ (0 <= sent)%Z.
Proof.
  assert (Hgen : forall ss st w os st' sent',
             run estimate st w ss = (st', w', os) ->
             count_of st' = Some sent' ->
             exists sent0, count_of st = Some sent0
                           /\ sent' = (sent0 + total_length (yielded os))%Z).
  { clear. induction ss as [|s ss IH]; intros st w os st' sent'.
    - intros [= <- <- <-] Hc. exists sent'. split; [exact Hc|simpl; lia].
    - cbn [run].
      destruct (handle_transcoding estimate st s w) as [[st1 w1] o1] eqn:Hstep.
      destruct (run estimate st1 w1 ss) as [[st2 w2] os2] eqn:Hrun.
      intros [= <- <- <-] Hc.
      destruct (IH _ _ _ _ _ Hrun Hc) as (sent1 & Hc1 & Hs1).
      destruct (handle_transcoding_count _ _ _ _ _ _ _ _ Hstep Hc1)
        as (sent0 & Hc0 & Hs0).
      exists sent0. split; [exact Hc0|].
      rewrite yielded_cons, total_length_app. lia. }
  intros Hrun.
  destruct (Hgen _ _ _ _ _ sent Hrun eq_refl) as (sent0 & [= <-] & Hs).
  split; [lia|].
  assert (Hpos : forall cs, (0 <= total_length cs)%Z)
    by (induction cs; simpl; lia).
  specialize (Hpos (yielded os)). lia.
Qed.

Lemma sent_counts_yielded_bytes_witness :
  3%Z = total_length [[Byte.x61]; [Byte.x62; Byte.x63]] /\ (0 <= 3)%Z.
Proof.
  exact (sent_counts_yielded_bytes (Some 1000%Z)
           (initial_world false example_pipe) _ [Next; Next]
           [Yielded [Byte.x61]; Yielded [Byte.x62; Byte.x63]] 3 eq_refl).
Defined.

(** ** The generator: reading to the end *)

Lemma run_loop (estimate : option Z) (chunks : list (list Byte.byte))
    (w : world) (sent : Z) :
  pipe w = map Data chunks ->
  Forall (fun c => c <> []) chunks ->
  run estimate (Streaming sent) w (repeat Next (S (length chunks)))
  = (Finished, finally (set_pipe w []),
     (map Yielded chunks ++ [StopIteration])%list).
Proof.
  revert w sent. induction chunks as [|c cs IH]; intros w sent Hp Hne.
  - simpl. unfold loop, transcode. rewrite Hp. simpl.
    unfold leave. now rewrite (set_pipe_same w []).
  - apply Forall_cons in Hne as [Hc Hcs].
    change (repeat Next (S (length (c :: cs))))
      with (Next :: repeat Next (S (length cs))).
    cbn [run handle_transcoding]. unfold loop, transcode. rewrite Hp.
    destruct c as [|b c]; [congruence|]. cbn [map].
    specialize (IH (set_pipe w (map Data cs))
                   (sent + Z.of_nat (length (b :: c)))%Z eq_refl Hcs).
    rewrite IH. reflexivity.
Qed.

(** X3.  A consumer that only asks for the next chunk, on a pipe that
    delivers its chunks and then ends, receives every chunk in order and then
    the end of the iteration; nothing is killed, and both handles are closed
    and waited on. *)
Theorem reading_to_the_end (estimate : option Z)
    (chunks : list (list Byte.byte)) (w : world) :
  pipe w = map Data chunks ->
  Forall (fun c => c <> []) chunks ->
  run estimate NotStarted w (repeat Next (S (length chunks)))
  = (Finished, finally (set_pipe w []),
     (map Yielded chunks ++ [StopIteration])%list)
  /\ log (finally (set_pipe w [])) = (log w ++ cleanup_actions w)%list
  /\ released (finally (set_pipe w [])) = true.
Proof.
  intros Hp Hne. split; [|split].
  - pose proof (run_loop estimate chunks w 0 Hp Hne) as Hrun.
    change (repeat Next (S (length chunks)))
      with (Next :: repeat Next (length chunks)) in *.
    exact Hrun.
  - now rewrite finally_log.
  - apply finally_released.
Qed.

Lemma reading_to_the_end_witness :
  run None NotStarted (initial_world true ending_pipe) [Next; Next; Next]
  = (Finished, finally (set_pipe (initial_world true ending_pipe) []),
     [Yielded [Byte.x61]; Yielded [Byte.x62; Byte.x63]; StopIteration]).
Proof.
  destruct (reading_to_the_end None [[Byte.x61]; [Byte.x62; Byte.x63]]
              (initial_world true ending_pipe)) as [Hrun _];
    [reflexivity | repeat constructor; discriminate | exact Hrun].
Defined.

(** ** The generator: the history of the handles *)

Lemma transcode_untouched (w w1 : world) (c : chunk) :
  transcode w = (c, w1) -> untouched w w1.
Proof.
  intros Ht. pose proof (transcode_frame _ _ _ Ht) as (_ & _ & Hl).
  split; [exact Hl|]. eauto using transcode_cleanup, transcode_kill.
Qed.

Lemma left_plain (w0 w : world) (o : outcome) :
  untouched w0 w -> left_by w0 (finally w) o.
Proof. intros (Hl & Hc & _). left. now rewrite finally_log, Hl, Hc. Qed.

Lemma left_killed (w0 w : world) (e : exn) :
  untouched w0 w -> left_by w0 (finally (kill_processes w)) (Raised e).
Proof.
  intros (Hl & Hc & Hk). right. split; [|reflexivity].
  now rewrite finally_log, kill_processes_log, kill_processes_cleanup,
    Hl, Hc, Hk, <- app_assoc.
Qed.

Lemma untouched_trans (w0 w1 w2 : world) :
  untouched w0 w1 -> untouched w1 w2 -> untouched w0 w2.
Proof. intros (A & B & C) (D & E & F). repeat split; congruence. Qed.

Lemma left_by_trans (w0 w1 w2 : world) (o : outcome) :
  untouched w0 w1 -> left_by w1 w2 o -> left_by w0 w2 o.
Proof. intros (A & B & C). unfold left_by. now rewrite A, B, C. Qed.

Lemma drain_history (w w' : world) (st' : gen_state) (o : outcome) :
  drain w = (st', w', o) ->
  (st' = Draining /\ untouched w w')
  \/ (st' = Finished /\ log w' = (log w ++ cleanup_actions w)%list).
Proof.
  unfold drain, leave.
  destruct (transcode w) as [[data| |e] w1] eqn:Ht;
    apply transcode_untouched in Ht; intros [= <- <- <-].
  - now left.
  - right. split; [reflexivity|]. destruct Ht as (Hl & Hc & _).
    now rewrite finally_log, Hl, Hc.
  - right. split; [reflexivity|]. destruct Ht as (Hl & Hc & _).
    now rewrite finally_log, Hl, Hc.
Qed.

Lemma except_history (estimate : option Z) (sent : Z) (e : exn) (w w' : world)
    (st' : gen_state) (o : outcome) :
  except estimate sent e w = (st', w', o) ->
  (st' = Draining /\ untouched w w') \/ (st' = Finished /\ left_by w w' o).
Proof.
  assert (Hw : untouched w w) by (repeat split).
  unfold except, leave.
  destruct e;
    try (intros [= <- <- <-]; right; split;
         eauto using left_plain, left_killed).
  destruct (near_the_end estimate sent) as [[|]|];
    try (intros [= <- <- <-]; right; split;
         eauto using left_plain, left_killed).
  intros Hd. apply drain_history in Hd as [Hd|[-> Hd]]; [now left|].
  right. split; [reflexivity|]. now left.
Qed.

Lemma loop_history (estimate : option Z) (sent : Z) (w w' : world)
    (st' : gen_state) (o : outcome) :
  loop estimate sent w = (st', w', o) ->
  (st' <> Finished /\ untouched w w') \/ (st' = Finished /\ left_by w w' o).
Proof.
  unfold loop, leave.
  destruct (transcode w) as [[data| |e] w1] eqn:Ht;
    apply transcode_untouched in Ht.
  - intros [= <- <- <-]. now left.
  - intros [= <- <- <-]. right. eauto using left_plain.
  - intros Hex. apply except_history in Hex as [[-> Hu]|[-> Hl]].
    + left. split; [discriminate|]. eauto using untouched_trans.
    + right. eauto using left_by_trans.
Qed.

(** One resumption either leaves the handles alone or is the exit. *)
Lemma handle_transcoding_history (estimate : option Z) (st st' : gen_state)
    (s : signal) (w w' : world) (o : outcome) :
  handle_transcoding estimate st s w = (st', w', o) ->
  st <> Finished ->
  (st' <> Finished /\ untouched w w')
  \/ (st' = Finished
      /\ ((st = NotStarted /\ w' = w /\ is_raised o = true) \/ left_by w w' o)).
Proof.
  assert (Hw : untouched w w) by (repeat split).
  destruct st as [|sent| |], s as [|e]; simpl; intros Hstep Hst;
    try congruence.
  - apply loop_history in Hstep as [?|[? ?]]; auto.
  - injection Hstep as <- <- <-. right. split; [reflexivity|]. left. auto.
  - apply loop_history in Hstep as [?|[? ?]]; auto.
  - apply except_history in Hstep as [[-> ?]|[? ?]];
      [left; split; [discriminate|assumption] | auto].
  - apply drain_history in Hstep as [[-> ?]|[-> Hl]].
    + left. split; [discriminate|assumption].
    + right. split; [reflexivity|]. right. now left.
  - unfold leave in Hstep. injection Hstep as <- <- <-.
    right. split; [reflexivity|]. right. now apply left_plain.
Qed.

Lemma existsb_raised_cons (o : outcome) (os : list outcome) :
  existsb is_raised os = true -> existsb is_raised (o :: os) = true.
Proof. simpl. intros ->. apply orb_true_r. Qed.

(** X4.  Over a whole life of the generator the handles see one of three
    histories: nothing at all, the cleanup alone, or the kills followed by
    the cleanup.  No handle is killed twice, waited on twice, or killed after
    it was waited on; once anything was done to the handles the generator is
    finished; and the kills happen only in a life in which an exception came
    out of the generator. *)
Theorem one_exit_history (estimate : option Z) (st' : gen_state)
    (w w' : world) (ss : list signal) (os : list outcome) :
  run estimate NotStarted w ss = (st', w', os) ->
  (log w' = log w
   \/ log w' = (log w ++ cleanup_actions w)%list
   \/ (log w' = (log w ++ kill_actions w ++ cleanup_actions w)%list
       /\ existsb is_raised os = true))
  /\ (log w' <> log w -> st' = Finished).
Proof.
  assert (Hgen : forall ss st w os,
             run estimate st w ss = (st', w', os) ->
             st <> Finished ->
             (st' <> Finished /\ untouched w w')
             \/ (st' = Finished
                 /\ (log w' = log w
                     \/ log w' = (log w ++ cleanup_actions w)%list
                     \/ (log w' = (log w ++ kill_actions w
                                     ++ cleanup_actions w)%list
                         /\ existsb is_raised os = true)))).
  { clear. induction ss as [|s ss IH]; intros st w os.
    - intros [= <- <- <-] Hst. left. split; [exact Hst|repeat split].
    - cbn [run].
      destruct (handle_transcoding estimate st s w) as [[st1 w1] o1] eqn:Hstep.
      destruct (run estimate st1 w1 ss) as [[st2 w2] os2] eqn:Hrun.
      intros [= <- <- <-] Hst.
      destruct (handle_transcoding_history _ _ _ _ _ _ _ Hstep Hst)
        as [[Hst1 Hu]|[-> Hexit]].
      + destruct (IH _ _ _ Hrun Hst1) as [[? Hu2]|[? Hlog]].
        * left. eauto using untouched_trans.
        * right. split; [assumption|]. destruct Hu as (Hl & Hc & Hk).
          rewrite <- Hl, <- Hc, <- Hk.
          destruct Hlog as [?|[?|[? ?]]]; auto using existsb_raised_cons.
      + pose proof (run_finished estimate w1 ss) as Hfin.
        rewrite Hrun in Hfin. simpl in Hfin. injection Hfin as -> ->.
        right. split; [reflexivity|].
        destruct Hexit as [(_ & -> & _)|[?|[? Hr]]]; auto.
        right. right. split; [assumption|]. simpl. now rewrite Hr. }
  intros Hrun. apply Hgen in Hrun; [|discriminate].
  destruct Hrun as [[_ (Hl & _ & _)]|[-> Hlog]].
  - split; [now left|congruence].
  - split; [exact Hlog|reflexivity].
Qed.

Lemma one_exit_history_witness :
  log (finally (kill_processes (initial_world true [Data [Byte.x64]])))
  = [Kill DecProc; Kill Proc; CloseStdout DecProc; Wait DecProc;
     CloseStdout Proc; Wait Proc]
  /\ (log (finally (kill_processes (initial_world true [Data [Byte.x64]])))
      <> log (initial_world true example_pipe) ->
      Finished = Finished).
Proof.
  split; [reflexivity|].
  exact (proj2 (one_exit_history (Some 1000%Z) Finished
                  (initial_world true example_pipe)
                  (finally (kill_processes
                              (initial_world true [Data [Byte.x64]])))
                  [Next; Next; Next]
                  [Yielded [Byte.x61]; Yielded [Byte.x62; Byte.x63];
                   Raised ExException]
                  eq_refl)).
Defined.

(** X5.  Once a cancellation was ignored, nothing kills the processes any
    more: a second cancellation, any other exception thrown in, or a read
    that fails ends the generator through the cleanup alone, which waits for
    the processes to end by themselves. *)
Theorem draining_never_kills (estimate : option Z) (st' : gen_state)
    (w w' : world) (ss : list signal) (os : list outcome) :
  run estimate Draining w ss = (st', w', os) ->
  (st' = Draining /\ log w' = log w)
  \/ (st' = Finished /\ log w' = (log w ++ cleanup_actions w)%list).
Proof.
  revert w os. induction ss as [|s ss IH]; intros w os.
  - intros [= <- <- <-]. now left.
  - cbn [run].
    destruct (handle_transcoding estimate Draining s w)
      as [[st1 w1] o1] eqn:Hstep.
    destruct (run estimate st1 w1 ss) as [[st2 w2] os2] eqn:Hrun.
    intros [= <- <- <-].
    assert (Hd : (st1 = Draining /\ untouched w w1)
                 \/ (st1 = Finished
                     /\ log w1 = (log w ++ cleanup_actions w)%list)).
    { destruct s as [|e]; simpl in Hstep.
      - exact (drain_history _ _ _ _ Hstep).
      - unfold leave in Hstep. injection Hstep as <- <- <-.
        right. split; [reflexivity|apply finally_log]. }
    destruct Hd as [[-> (Hl & Hc & _)]|[-> Hl]].
    + apply IH in Hrun. rewrite <- Hl, <- Hc. exact Hrun.
    + pose proof (run_finished estimate w1 ss) as Hfin.
      rewrite Hrun in Hfin. simpl in Hfin. injection Hfin as -> ->.
      now right.
Qed.

Lemma draining_never_kills_witness :
  (Finished = Draining
   /\ log (finally (initial_world true [Data [Byte.x62; Byte.x63];
                                        ReadRaises ExException;
                                        Data [Byte.x64]]))
      = log (initial_world true example_pipe))
  \/ (Finished = Finished
      /\ log (finally (initial_world true [Data [Byte.x62; Byte.x63];
                                           ReadRaises ExException;
                                           Data [Byte.x64]]))
         = [CloseStdout DecProc; Wait DecProc; CloseStdout Proc; Wait Proc]).
Proof.
  exact (draining_never_kills (Some 1000%Z) Finished
           (initial_world true example_pipe) _
           [Next; Throw ExGeneratorExit]
           [Yielded [Byte.x61]; Raised ExGeneratorExit] eq_refl).
Defined.

(** ** The endpoint: what it does before it answers *)

Lemma popen_cases `{Host} (who : proc_id) (argv : option (list string))
    (fx : list effect) (r : result unit) :
  popen who argv = (fx, r) ->
  (exists a, fx = [Popen who a] /\ r = Ok tt)
  \/ (exists a, fx = [PopenFailed who a]
                /\ r = Error (ServerError
                                "Error while running the transcoding process"))
  \/ (fx = [] /\ (r = Error TypeError \/ r = Error IndexError)).
Proof.
  unfold popen. destruct argv as [[|a argv]|].
  - intros [= <- <-]. auto.
  - destruct (popen_ok (a :: argv)); intros [= <- <-]; eauto.
  - intros [= <- <-]. auto.
Qed.

(** What [start_processes] leaves behind, by its result. *)
Lemma start_processes_cases `{Host} (tc dc ec : option (list string))
    (fx : list effect) (r : result bool) :
  start_processes tc dc ec = (fx, r) ->
  (exists p, fx = [Popen Proc p] /\ r = Ok false)
  \/ (exists d p, fx = [Popen DecProc d; Popen Proc p] /\ r = Ok true)
  \/ (exists who a,
        (fx = [PopenFailed who a]
         \/ exists d, who = Proc /\ fx = [Popen DecProc d; PopenFailed Proc a])
        /\ r = Error (ServerError "Error while running the transcoding process"))
  \/ ((fx = [] \/ exists d, fx = [Popen DecProc d])
      /\ (r = Error TypeError \/ r = Error IndexError)).
Proof.
  unfold start_processes. destruct (Py.truthy_list tc).
  - destruct (popen Proc tc) as [fx1 [u|e]] eqn:Hp; intros [= <- <-];
      apply popen_cases in Hp
        as [(a & -> & [=])|[(a & -> & [=])|(-> & [[=]|[=]])]]; subst; eauto 10.
  - destruct (popen DecProc dc) as [fx1 [u|e]] eqn:Hd.
    + apply popen_cases in Hd
        as [(d & -> & _)|[(a & -> & [=])|(-> & [[=]|[=]])]].
      destruct (popen Proc ec) as [fx2 [u2|e2]] eqn:Hp; intros [= <- <-];
        apply popen_cases in Hp
          as [(a & -> & [=])|[(a & -> & [=])|(-> & [[=]|[=]])]];
        subst; simpl; eauto 12.
    + intros [= <- <-].
      apply popen_cases in Hd
        as [(a & -> & [=])|[(a & -> & [=])|(-> & [[=]|[=]])]]; subst; eauto 10.
Qed.

Lemma prepare_error `{Host} (x : option string) (res : track) (i o : string)
    (r : Z) (e : error) :
  prepare_transcoding_cmdline x res i o r = Error e -> e = ValueError.
Proof.
  unfold prepare_transcoding_cmdline.
  destruct (negb (Py.truthy_str x)); [discriminate|].
  destruct (shlex_split _); [discriminate|]. now intros [= <-].
Qed.

Lemma prepare_all_error `{Host}
    (tpls : option string * option string * option string) (res : track)
    (i o : string) (r : Z) (e : error) :
  prepare_all tpls res i o r = Error e -> e = ValueError.
Proof.
  unfold prepare_all. destruct tpls as [[t d] c].
  destruct (prepare_transcoding_cmdline t res i o r) as [?|e1] eqn:H1;
    [|intros [= <-]; eauto using prepare_error].
  destruct (prepare_transcoding_cmdline d res i o r) as [?|e2] eqn:H2;
    [|intros [= <-]; eauto using prepare_error].
  destruct (prepare_transcoding_cmdline c res i o r) as [?|e3] eqn:H3;
    [discriminate|intros [= <-]; eauto using prepare_error].
Qed.

Lemma select_templates_error (config : config_t) (src dst : string) (e : error) :
  select_templates config src dst = Error e ->
  e = GenericError ("No way to transcode from " ++ src ++ " to " ++ dst).
Proof.
  unfold select_templates.
  destruct (_ && _); [|discriminate].
  destruct (negb _); [|discriminate]. now intros [= <-].
Qed.

(** The handler of the cache miss, by its result. *)
Lemma on_cache_miss_cases `{Host} (config : config_t) (req : request)
    (res : track) (t : target) (key : string) (fx : list effect)
    (r : result response) :
  on_cache_miss config req res t key = (fx, r) ->
  (exists hd est,
     r = Ok (Stream key hd est (dst_mimetype t) est)
     /\ ((hd = false /\ exists p, fx = [Popen Proc p; CacheSetGenerated key])
         \/ (hd = true
             /\ exists d p,
                  fx = [Popen DecProc d; Popen Proc p; CacheSetGenerated key])))
  \/ (fx = []
      /\ (r = Error ValueError
          \/ r = Error (GenericError
                          ("No way to transcode from " ++ suffix res ++ " to "
                           ++ dst_suffix t))))
  \/ (exists who a,
        (fx = [PopenFailed who a]
         \/ exists d, who = Proc /\ fx = [Popen DecProc d; PopenFailed Proc a])
        /\ r = Error (ServerError "Error while running the transcoding process"))
  \/ ((fx = [] \/ exists d, fx = [Popen DecProc d])
      /\ (r = Error TypeError \/ r = Error IndexError)).
Proof.
  unfold on_cache_miss.
  destruct (select_templates _ _ _) as [tpls|e] eqn:Hs.
  2:{ intros [= <- <-]. apply select_templates_error in Hs. subst. auto. }
  destruct (prepare_all _ _ _ _ _) as [[[tc dc] ec]|e] eqn:Hp.
  2:{ intros [= <- <-]. apply prepare_all_error in Hp. subst. auto. }
  destruct (start_processes tc dc ec) as [fx1 [hd|e]] eqn:Hst;
    intros [= <- <-];
    apply start_processes_cases in Hst
      as [(p & -> & [=])|[(d & p & -> & [=])|[(who & a & Hfx & [=])|(Hfx & [[=]|[=]])]]];
    subst; simpl; eauto 12.
Qed.

(** X6.  The trace of every answer.  A streamed response was preceded by a
    cache lookup that missed, by the start of the decoder (when there is
    one) and then of the main process, and by the registration with the
    cache, in this order and nothing else; a file response started no
    process: it is either the source file, with no cache access at all, or
    the artifact the cache lookup returned; a failed request never registers
    a production. *)
Theorem stream_media_trace `{Host} (config : config_t) (cache : cache_t)
    (prefs : client_prefs) (req : request) (res : track) (fx : list effect)
    (r : result response) :
  stream_media config cache prefs req res = (fx, r) ->
  match r with
  | Ok (Stream key hd est mime cl) =>
      cache !! key = None
      /\ ((hd = false
           /\ exists p, fx = [CacheGet key; Popen Proc p; CacheSetGenerated key])
          \/ (hd = true
              /\ exists d p, fx = [CacheGet key; Popen DecProc d; Popen Proc p;
                                   CacheSetGenerated key]))
  | Ok (SendFile file mime conditional) =>
      conditional = true
      /\ ((fx = [] /\ file = path res)
          \/ exists key, fx = [CacheGet key] /\ cache !! key = Some file)
  | Error _ => forall key, ~ In (CacheSetGenerated key) fx
  end.
Proof.
  unfold stream_media.
  destruct (has_timeOffset req); [intros [= <- <-] key []|].
  destruct (has_size req); [intros [= <- <-] key []|].
  destruct (negotiate config prefs req res) as [t|e];
    [|intros [= <- <-] key []].
  destruct (requires_transcode res t); [|intros [= <- <-]; auto].
  destruct (cache !! _) as [file|] eqn:Hc; [intros [= <- <-]; eauto|].
  destruct (on_cache_miss _ _ _ _ _) as [fx1 r1] eqn:Hm. intros [= <- <-].
  apply on_cache_miss_cases in Hm
    as [(hd & est & -> & Hfx)
       |[(-> & [-> | ->])
        |[(who & a & Hfx & ->)|(Hfx & [-> | ->])]]].
  - split; [exact Hc|].
    destruct Hfx as [(-> & p & ->)|(-> & d & p & ->)]; eauto.
  - intros key [E|[]]. discriminate.
  - intros key [E|[]]. discriminate.
  - intros key [E|Hin]; [discriminate|].
    destruct Hfx as [->|(d & _ & ->)]; simpl in Hin; intuition discriminate.
  - intros key [E|Hin]; [discriminate|].
    destruct Hfx as [->|(d & ->)]; simpl in Hin; intuition discriminate.
  - intros key [E|Hin]; [discriminate|].
    destruct Hfx as [->|(d & ->)]; simpl in Hin; intuition discriminate.
Qed.

Lemma stream_media_trace_witness :
  (∅ : cache_t) !! "9b2e5a2c-1f3d-4e7a-8c1b-0a1b2c3d4e5f-128.ogg" = None
  /\ ((false = false
       /\ exists p,
            fst (@stream_media example_host example_config ∅ no_prefs
                   capped_request so_what)
            = [CacheGet "9b2e5a2c-1f3d-4e7a-8c1b-0a1b2c3d4e5f-128.ogg";
               Popen Proc p;
               CacheSetGenerated "9b2e5a2c-1f3d-4e7a-8c1b-0a1b2c3d4e5f-128.ogg"])
      \/ (false = true
          /\ exists d p,
               fst (@stream_media example_host example_config ∅ no_prefs
                      capped_request so_what)
               = [CacheGet "9b2e5a2c-1f3d-4e7a-8c1b-0a1b2c3d4e5f-128.ogg";
                  Popen DecProc d; Popen Proc p;
                  CacheSetGenerated
                    "9b2e5a2c-1f3d-4e7a-8c1b-0a1b2c3d4e5f-128.ogg"])).
Proof.
  exact (@stream_media_trace example_host example_config ∅ no_prefs
           capped_request so_what _
           (Ok (Stream "9b2e5a2c-1f3d-4e7a-8c1b-0a1b2c3d4e5f-128.ogg" false
                       (Some 8720000%Z) "audio/ogg" (Some 8720000%Z)))
           eq_refl).
Defined.



Lemma negotiate_error `{Host} (config : config_t) (prefs : client_prefs)
    (req : request) (res : track) (e : error) :
  negotiate config prefs req res = Error e -> e = ValueError.
Proof.
  unfold negotiate. destruct (choose_format _ _ _) as [u sfx].
  unfold cap_bitrate. destruct (Py.truthy_str (maxBitRate req));
    [|discriminate].
  destruct (py_int _); [|now intros [= <-]].
  destruct (_ && _); discriminate.
Qed.

(** The three ways through the endpoint. *)
Lemma stream_media_cases `{Host} (config : config_t) (cache : cache_t)
    (prefs : client_prefs) (req : request) (res : track) (fx : list effect)
    (r : result response) :
  stream_media config cache prefs req res = (fx, r) ->
  (fx = []
   /\ ((exists name, r = Error (UnsupportedParameter name))
       \/ r = Error ValueError
       \/ exists mime, r = Ok (SendFile (path res) mime true)))
  \/ (exists key file mime,
        fx = [CacheGet key] /\ cache !! key = Some file
        /\ r = Ok (SendFile file mime true))
  \/ (exists t key fx1,
        cache !! key = None /\ fx = CacheGet key :: fx1
        /\ on_cache_miss config req res t key = (fx1, r)).
Proof.
  unfold stream_media.
  destruct (has_timeOffset req); [intros [= <- <-]; eauto 6|].
  destruct (has_size req); [intros [= <- <-]; eauto 6|].
  destruct (negotiate config prefs req res) as [t|e0] eqn:Hn.
  2:{ intros [= <- <-]. apply negotiate_error in Hn. subst. auto. }
  destruct (requires_transcode res t); [|intros [= <- <-]; eauto 6].
  destruct (cache !! _) as [file|] eqn:Hc; [intros [= <- <-]; eauto 8|].
  destruct (on_cache_miss _ _ _ _ _) as [fx1 r1] eqn:Hm. intros [= <- <-].
  right. right. eauto 8.
Qed.

(** X8.  A process that cannot be started ends the request with
    [ServerError], and only that does; nothing is started after the failure,
    but a decoder that was started before its encoder failed is left as it
    is: the endpoint neither kills it nor waits for it, and the generator
    that would is never created. *)
Theorem spawn_failure `{Host} (config : config_t) (cache : cache_t)
    (prefs : client_prefs) (req : request) (res : track) (fx : list effect)
    (r : result response) :
  stream_media config cache prefs req res = (fx, r) ->
  ((exists message, r = Error (ServerError message))
   <-> exists who a, In (PopenFailed who a) fx)
  /\ (forall who a,
        In (PopenFailed who a) fx ->
        r = Error (ServerError "Error while running the transcoding process")
        /\ exists key,
             fx = [CacheGet key; PopenFailed who a]
             \/ exists d, who = Proc
                          /\ fx = [CacheGet key; Popen DecProc d;
                                   PopenFailed Proc a]).
Proof.
  intros Hs.
  assert (Hcases :
    (exists who a key,
        r = Error (ServerError "Error while running the transcoding process")
        /\ (fx = [CacheGet key; PopenFailed who a]
            \/ exists d, who = Proc
                         /\ fx = [CacheGet key; Popen DecProc d;
                                  PopenFailed Proc a]))
    \/ ((forall message, r <> Error (ServerError message))
        /\ forall who a, ~ In (PopenFailed who a) fx)).
  { apply stream_media_cases in Hs
      as [(-> & Hr)|[(key & file & mime & -> & _ & ->)
                    |(t & key & fx1 & _ & -> & Hm)]].
    - right. split; [|intros ? ? []].
      destruct Hr as [(name & ->)|[->|(mime & ->)]]; discriminate.
    - right. split; [discriminate|]. intros ? ? [E|[]]. discriminate.
    - apply on_cache_miss_cases in Hm
        as [(hd & est & -> & Hfx)
           |[(-> & Hr)
            |[(who & a & Hfx & ->)|(Hfx & Hr)]]].
      + right. split; [discriminate|]. intros who a Hin.
        destruct Hfx as [(_ & p & ->)|(_ & d & p & ->)]; simpl in Hin;
          intuition discriminate.
      + right. split; [destruct Hr as [-> | ->]; discriminate|].
        intros ? ? [E|[]]. discriminate.
      + left. exists who, a, key. split; [reflexivity|].
        destruct Hfx as [->|(d & -> & ->)]; eauto.
      + right. split; [destruct Hr as [-> | ->]; discriminate|].
        intros who a Hin.
        destruct Hfx as [->|(d & ->)]; simpl in Hin; intuition discriminate. }
  destruct Hcases as [(who & a & key & -> & Hfx)|[Hr Hfx]].
  - split.
    + split; [intros _|eauto].
      exists who, a. destruct Hfx as [->|(d & -> & ->)]; simpl; auto.
    + intros who' a' Hin. split; [reflexivity|]. exists key.
      destruct Hfx as [->|(d & -> & ->)]; simpl in Hin.
      * destruct Hin as [E|[E|[]]]; [discriminate|].
        injection E as <- <-. auto.
      * destruct Hin as [E|[E|[E|[]]]]; try discriminate.
        injection E as <- <-. eauto.
  - split.
    + split; [intros (m & ->); now destruct (Hr m)|].
      intros (who & a & Hin). now destruct (Hfx who a).
    + intros who a Hin. now destruct (Hfx who a).
Qed.

Lemma spawn_failure_witness :
  @stream_media failing_encoder_host piped_config ∅ no_prefs mp3_request flamenco
  = ([CacheGet "0c5d7e90-aa41-4c2b-9d0e-5b6f7a8c9d01-192.mp3";
      Popen DecProc
        ["flac"; "-d"; "-c"; "/music/Kind of Blue/05 Flamenco Sketches.flac"];
      PopenFailed Proc ["lame"; "-b"; "192"; "-"; "-"]],
     Error (ServerError "Error while running the transcoding process"))
  /\ exists message,
       (Error (ServerError "Error while running the transcoding process")
        : result response)
       = Error (ServerError message).
Proof.
  assert (Hs : @stream_media failing_encoder_host piped_config ∅ no_prefs
                 mp3_request flamenco
               = ([CacheGet "0c5d7e90-aa41-4c2b-9d0e-5b6f7a8c9d01-192.mp3";
                   Popen DecProc
                     ["flac"; "-d"; "-c";
                      "/music/Kind of Blue/05 Flamenco Sketches.flac"];
                   PopenFailed Proc ["lame"; "-b"; "192"; "-"; "-"]],
                  Error (ServerError
                           "Error while running the transcoding process")))
    by reflexivity.
  split; [exact Hs|].
  apply (proj1 (@spawn_failure failing_encoder_host piped_config ∅ no_prefs
                  mp3_request flamenco _ _ Hs)).
  exists Proc, ["lame"; "-b"; "192"; "-"; "-"]. simpl. auto.
Defined.

(** X9.  All three templates are tokenized before anything is started, so a
    template that cannot be tokenized fails the request with no process
    started, also when the command chosen would not have used it. *)
Theorem untokenizable_template `{Host} (config : config_t) (req : request)
    (res : track) (t : target) (key : string)
    (transcoder decoder encoder : option string) (tpl : string) :
  select_templates config (suffix res) (dst_suffix t)
  = Ok (transcoder, decoder, encoder) ->
  transcoder = Some tpl \/ decoder = Some tpl \/ encoder = Some tpl ->
  tpl <> "" ->
  shlex_split tpl = None ->
  on_cache_miss config req res t key = ([], Error ValueError).
Proof.
  intros Hsel Hin Hne Hsplit.
  assert (Hbad : forall i o r,
             prepare_transcoding_cmdline (Some tpl) res i o r = Error ValueError).
  { intros. unfold prepare_transcoding_cmdline.
    destruct tpl; [congruence|]. simpl in *. now rewrite Hsplit. }
  unfold on_cache_miss. rewrite Hsel.
  assert (Hall : prepare_all (transcoder, decoder, encoder) res (suffix res)
                   (dst_suffix t) (dst_bitrate t) = Error ValueError).
  { unfold prepare_all.
    destruct (prepare_transcoding_cmdline transcoder _ _ _ _) as [?|e1] eqn:H1.
    2:{ apply prepare_error in H1. now subst. }
    destruct (prepare_transcoding_cmdline decoder _ _ _ _) as [?|e2] eqn:H2.
    2:{ apply prepare_error in H2. now subst. }
    destruct (prepare_transcoding_cmdline encoder _ _ _ _) as [?|e3] eqn:H3.
    2:{ apply prepare_error in H3. now subst. }
    destruct Hin as [-> | [-> | ->]]; rewrite Hbad in *; discriminate. }
  now rewrite Hall.
Qed.

Lemma untokenizable_template_witness :
  Shlex.split "flac -d 'unbalanced" = None
  /\ @on_cache_miss example_host broken_config mp3_request flamenco
       {| dst_suffix := "mp3"; dst_bitrate := 192; dst_mimetype := "audio/mpeg" |}
       "0c5d7e90-aa41-4c2b-9d0e-5b6f7a8c9d01-192.mp3"
     = ([], Error ValueError).
Proof.
  split; [reflexivity|].
  apply (@untokenizable_template example_host broken_config mp3_request
           flamenco
           {| dst_suffix := "mp3"; dst_bitrate := 192;
              dst_mimetype := "audio/mpeg" |}
           "0c5d7e90-aa41-4c2b-9d0e-5b6f7a8c9d01-192.mp3"
           (Some "ffmpeg -i %srcpath -") (Some "flac -d 'unbalanced") None
           "flac -d 'unbalanced").
  - reflexivity.
  - right. left. reflexivity.
  - discriminate.
  - reflexivity.
Defined.

(** ** Negotiation: further properties *)

(** X10.  The estimate is the nominal size of the output, bitrate times
    duration, in whole bytes rounded down; it is not negative for a track
    with no negative bitrate and duration; and a streamed response carries
    it as its content length whenever it was computed, zero included. *)
Theorem content_length_is_the_estimate `{Host} (config : config_t)
    (cache : cache_t) (prefs : client_prefs) (req : request) (res : track)
    (fx : list effect) (key : string) (has_dec : bool)
    (estimate cl : option Z) (mime : string) :
  stream_media config cache prefs req res
  = (fx, Ok (Stream key has_dec estimate mime cl)) ->
  estimateContentLength req = Some "true" ->
  exists t e,
    negotiate config prefs req res = Ok t
    /\ estimate = Some e /\ cl = Some e
    /\ (8 * e <= dst_bitrate t * 1000 * duration res < 8 * e + 8)%Z
    /\ ((0 <= dst_bitrate t)%Z -> (0 <= duration res)%Z -> (0 <= e)%Z).
Proof.
  intros Hs Hreq. apply stream_media_estimate in Hs as (t & Hn & -> & ->).
  rewrite Hreq. simpl.
  exists t, (dst_bitrate t * 1000 * duration res / 8)%Z.
  repeat split; try assumption.
  - pose proof (Z.mul_div_le (dst_bitrate t * 1000 * duration res) 8). lia.
  - pose proof (Z.mul_succ_div_gt (dst_bitrate t * 1000 * duration res) 8).
    lia.
  - intros Hb Hd. apply Z.div_pos; nia.
Qed.

Lemma content_length_is_the_estimate_witness :
  exists t e,
    @negotiate example_host example_config no_prefs capped_request so_what = Ok t
    /\ Some 8720000%Z = Some e /\ Some 8720000%Z = Some e
    /\ (8 * e <= dst_bitrate t * 1000 * duration so_what < 8 * e + 8)%Z
    /\ ((0 <= dst_bitrate t)%Z -> (0 <= duration so_what)%Z -> (0 <= e)%Z).
Proof.
  exact (@content_length_is_the_estimate example_host example_config ∅
           no_prefs capped_request so_what _
           "9b2e5a2c-1f3d-4e7a-8c1b-0a1b2c3d4e5f-128.ogg" false
           (Some 8720000%Z) (Some 8720000%Z) "audio/ogg" eq_refl eq_refl).
Defined.

(** X11.  The mimetype of the answer: that of the source as long as the
    suffix stays; for another suffix the guess of the mimetype table when it
    has one that is not empty, and [application/octet-stream] otherwise,
    hence never the empty string. *)
Theorem target_mimetype `{Host} (config : config_t) (prefs : client_prefs)
    (req : request) (res : track) (t : target) :
  negotiate config prefs req res = Ok t ->
  (dst_suffix t = suffix res -> dst_mimetype t = mimetype res)
  /\ (dst_suffix t <> suffix res ->
      dst_mimetype t <> ""
      /\ (guess_type ("dummyname." ++ dst_suffix t) = Some (dst_mimetype t)
          \/ dst_mimetype t = "application/octet-stream")).
Proof.
  intros Hn. apply negotiate_steps in Hn as [_ Hm]. split.
  - intros E. now rewrite Hm, E, String.eqb_refl.
  - intros Hne. apply String.eqb_neq in Hne. rewrite Hne in Hm. simpl in Hm.
    unfold Py.or_str in Hm.
    destruct (guess_type ("dummyname." ++ dst_suffix t)) as [[|c g]|];
      simpl in Hm; rewrite Hm; split; auto; discriminate.
Qed.

Lemma target_mimetype_witness :
  "audio/ogg" <> ""
  /\ (guess_audio "dummyname.ogg" = Some "audio/ogg"
      \/ "audio/ogg" = "application/octet-stream").
Proof.
  apply (proj2 (@target_mimetype example_host example_config no_prefs
                  capped_request so_what
                  {| dst_suffix := "ogg"; dst_bitrate := 128;
                     dst_mimetype := "audio/ogg" |} eq_refl)).
  discriminate.
Defined.

Lemma substitutions_percent (res : track) (i o : string) (r : Z) :
  Forall (fun kv => exists old, fst kv = String "%" old) (substitutions res i o r).
Proof. unfold substitutions. repeat constructor; simpl; eexists; reflexivity. Qed.

(** X12.  A template in which no token has a percent sign is rendered as its
    tokens, the same for every track and every target. *)
Theorem template_without_placeholder `{Host} (tpl : string)
    (toks : list string) (res : track) (i o : string) (r : Z) :
  tpl <> "" ->
  shlex_split tpl = Some toks ->
  Forall (fun tok => Py.contains_char "%" tok = false) toks ->
  prepare_transcoding_cmdline (Some tpl) res i o r = Ok (Some toks).
Proof.
  intros Hne Hs Hall.
  assert (Hmap : map (substitute (substitutions res i o r)) toks = toks).
  { clear Hs. induction Hall as [|tok toks Htok _ IH]; [reflexivity|].
    cbn [map]. rewrite IH. f_equal.
    apply substitute_absent; [apply substitutions_percent|exact Htok]. }
  unfold prepare_transcoding_cmdline.
  destruct tpl as [|c tpl]; [congruence|].
  simpl. simpl in Hs. rewrite Hs. do 2 f_equal. exact Hmap.
Qed.

Lemma template_without_placeholder_witness :
  @prepare_transcoding_cmdline example_host (Some plain_template) so_what
    "mp3" "ogg" 128
  = Ok (Some ["flac"; "-d"; "-c"; "-"]).
Proof.
  apply (@template_without_placeholder example_host plain_template
           ["flac"; "-d"; "-c"; "-"] so_what "mp3" "ogg" 128).
  - discriminate.
  - reflexivity.
  - repeat constructor.
Defined.

(** X13.  A request that asks for nothing (no format, no [maxBitRate] that
    lowers the bitrate) from a client without preferences that would change
    the stream is answered with the source file, whatever is configured and
    whatever the cache holds: no lookup, no process. *)
Theorem plain_request_is_passthrough `{Host} (config : config_t)
    (cache : cache_t) (prefs : client_prefs) (req : request) (res : track) :
  has_timeOffset req = false -> has_size req = false ->
  Py.truthy_str (format req) = false ->
  Py.truthy_str (pref_format prefs) = false ->
  (forall b, pref_bitrate prefs = Some b -> b = 0%Z \/ (bitrate res <= b)%Z) ->
  (Py.truthy_str (maxBitRate req) = false
   \/ exists mb m, maxBitRate req = Some mb /\ py_int mb = Some m
                   /\ (m = 0%Z \/ (bitrate res <= m)%Z)) ->
  stream_media config cache prefs req res
  = ([], Ok (SendFile (path res) (mimetype res) true)).
Proof.
  intros Hto Hsz Hf Hpf Hpb Hmb.
  assert (Hlow : lower_bitrate (pref_bitrate prefs) (bitrate res) = bitrate res).
  { unfold lower_bitrate. destruct (pref_bitrate prefs) as [b|]; [|reflexivity].
    simpl. destruct (Hpb b eq_refl) as [->|Hb]; [reflexivity|].
    destruct (Z.ltb_spec b (bitrate res)); [lia|].
    now rewrite andb_false_r. }
  assert (Hn : negotiate config prefs req res
               = Ok {| dst_suffix := suffix res; dst_bitrate := bitrate res;
                       dst_mimetype := mimetype res |}).
  { unfold negotiate, request_format, choose_format.
    rewrite Hf, Hf, Hpf, Hlow. unfold cap_bitrate.
    destruct Hmb as [->|(mb & m & -> & Hint & Hm)].
    - now rewrite String.eqb_refl.
    - destruct (Py.truthy_str (Some mb)); [|now rewrite String.eqb_refl].
      simpl. rewrite Hint.
      assert (Hc : ((bitrate res >? m)%Z && negb (m =? 0)%Z) = false).
      { destruct Hm as [->|Hm]; [apply andb_false_r|].
        apply andb_false_iff. left. lia. }
      rewrite Hc. now rewrite String.eqb_refl. }
  unfold stream_media. rewrite Hto, Hsz, Hn.
  unfold requires_transcode. simpl.
  now rewrite String.eqb_refl, Z.eqb_refl.
Qed.

Lemma plain_request_is_passthrough_witness :
  @stream_media example_host example_config ∅ no_prefs plain_request so_what
  = ([], Ok (SendFile "/music/Kind of Blue/01 So What.mp3" "audio/mpeg" true)).
Proof.
  apply (@plain_request_is_passthrough example_host example_config ∅ no_prefs
           plain_request so_what); try reflexivity.
  - intros b Hb. discriminate Hb.
  - left. reflexivity.
Defined.

(** X14.  A request for the format [raw], in any case of letters, keeps the
    suffix and the mimetype of the source, but not always the file: the
    stream is transcoded all the same exactly when a preferred bitrate or a
    [maxBitRate] lowers the bitrate. *)
Theorem raw_keeps_the_format `{Host} (config : config_t) (prefs : client_prefs)
    (req : request) (res : track) (t : target) (f : string) :
  negotiate config prefs req res = Ok t ->
  format req = Some f -> f <> "" -> py_lower f = "raw" ->
  dst_suffix t = suffix res
  /\ dst_mimetype t = mimetype res
  /\ (requires_transcode res t = true <-> (dst_bitrate t < bitrate res)%Z).
Proof.
  intros Hn Hf Hne Hraw.
  pose proof (negotiate_steps _ _ _ _ _ Hn) as [Hcap Hm]. simpl in Hcap.
  assert (Hrf : request_format req = Some "raw").
  { unfold request_format. rewrite Hf. destruct f; [congruence|].
    simpl. now rewrite Hraw. }
  rewrite Hrf in Hcap. simpl in Hcap.
  assert (Hs : dst_suffix t = suffix res).
  { unfold cap_bitrate in Hcap.
    destruct (Py.truthy_str (maxBitRate req)); [|now injection Hcap as <- _].
    destruct (py_int _); [|discriminate].
    destruct (_ && _); now injection Hcap as <- _. }
  split; [exact Hs|]. split; [now rewrite Hm, Hs, String.eqb_refl|].
  apply cap_bitrate_le in Hcap.
  pose proof (lower_bitrate_le (pref_bitrate prefs) (bitrate res)).
  rewrite requires_transcode_iff. split.
  - intros [Hd|Hd]; [congruence|lia].
  - intros Hlt. right. lia.
Qed.

Lemma raw_keeps_the_format_witness :
  @negotiate example_host example_config ogg_prefs raw_request flamenco
  = Ok {| dst_suffix := "flac"; dst_bitrate := 96; dst_mimetype := "audio/flac" |}
  /\ @requires_transcode flamenco
       {| dst_suffix := "flac"; dst_bitrate := 96; dst_mimetype := "audio/flac" |}
     = true.
Proof.
  split; [reflexivity|].
  destruct (@raw_keeps_the_format example_host example_config ogg_prefs
              raw_request flamenco
              {| dst_suffix := "flac"; dst_bitrate := 96;
                 dst_mimetype := "audio/flac" |} "raw")
    as (_ & _ & Hreq); [reflexivity | reflexivity | discriminate | reflexivity |].
  apply Hreq. reflexivity.
Defined.

(** X15.  The request format is read without regard to the case of its
    letters: two formats that are equal in lower case are answered alike,
    in the effects and in the response. *)
Theorem format_case_is_ignored `{Host} (config : config_t) (cache : cache_t)
    (prefs : client_prefs) (req : request) (res : track) (f1 f2 : string) :
  f1 <> "" -> f2 <> "" -> py_lower f1 = py_lower f2 ->
  stream_media config cache prefs (with_format req (Some f1)) res
  = stream_media config cache prefs (with_format req (Some f2)) res.
Proof.
  intros H1 H2 Hl.
  assert (Hrf : request_format (with_format req (Some f1))
                = request_format (with_format req (Some f2))).
  { unfold request_format, with_format. simpl.
    destruct f1; [congruence|]. destruct f2; [congruence|].
    simpl. now rewrite Hl. }
  assert (Hn : negotiate config prefs (with_format req (Some f1)) res
               = negotiate config prefs (with_format req (Some f2)) res).
  { unfold negotiate. now rewrite Hrf. }
  unfold stream_media. rewrite Hn. reflexivity.
Qed.

Lemma format_case_is_ignored_witness :
  @stream_media example_host example_config ∅ no_prefs
    (with_format plain_request (Some "OGG")) so_what
  = @stream_media example_host example_config ∅ no_prefs
      (with_format plain_request (Some "ogg")) so_what.
Proof.
  apply (@format_case_is_ignored example_host example_config ∅ no_prefs
           plain_request so_what "OGG" "ogg");
    [discriminate | discriminate | reflexivity].
Defined.

(** ** Paths *)

Lemma append_assoc_r (a b c : string) : (a ++ b) ++ c = a ++ (b ++ c).
Proof.
  induction a as [|x a IH]; [reflexivity|].
  rewrite !append_cons. now rewrite IH.
Qed.

Lemma rsplit_some (c : ascii) (s pre post : string) :
  OsPath.rsplit c s = Some (pre, post) ->
  s = pre ++ String c post /\ Py.contains_char c post = false.
Proof.
  revert pre. induction s as [|a s IH]; intros pre; [discriminate|].
  cbn [OsPath.rsplit].
  destruct (OsPath.rsplit c s) as [[pre' post']|] eqn:Hr.
  - intros [= <- <-]. destruct (IH pre' eq_refl) as [-> Hc].
    split; [reflexivity|exact Hc].
  - destruct (Ascii.eqb_spec a c) as [->|Hne]; [|discriminate].
    intros [= <- <-]. split; [reflexivity|].
    clear IH. revert Hr. induction s as [|b s IH]; [reflexivity|].
    cbn [OsPath.rsplit]. destruct (OsPath.rsplit c s) as [[? ?]|];
      [discriminate|].
    destruct (Ascii.eqb_spec b c) as [->|Hb]; [discriminate|].
    intros _. simpl. rewrite IH by reflexivity.
    destruct (Ascii.eqb_spec c b); [congruence|reflexivity].
Qed.

Lemma rsplit_none (c : ascii) (s : string) :
  OsPath.rsplit c s = None -> Py.contains_char c s = false.
Proof.
  induction s as [|b s IH]; [reflexivity|].
  cbn [OsPath.rsplit]. destruct (OsPath.rsplit c s) as [[? ?]|];
    [discriminate|].
  destruct (Ascii.eqb_spec b c) as [->|Hb]; [discriminate|].
  intros _. simpl. rewrite IH by reflexivity.
  destruct (Ascii.eqb_spec c b); [congruence|reflexivity].
Qed.

Lemma basename_flat (p : string) :
  Py.contains_char "/" (OsPath.basename p) = false
  /\ exists dir, p = dir ++ OsPath.basename p.
Proof.
  unfold OsPath.basename.
  destruct (OsPath.rsplit "/" p) as [[pre post]|] eqn:Hr.
  - apply rsplit_some in Hr as [-> Hc]. split; [exact Hc|].
    exists (pre ++ "/"). now rewrite append_assoc_r.
  - split; [now apply rsplit_none|]. now exists "".
Qed.

(** ** [download_media] *)

Lemma zipped_members (rv : collection) :
  exists members,
    zipped rv = Zipped members "application/zip"
                       ("attachment; filename=" ++ coll_name rv ++ ".zip")
    /\ map fst members = map path (coll_tracks rv)
    /\ Forall (fun m => snd m = OsPath.basename (fst m)
                        /\ Py.contains_char "/" (snd m) = false
                        /\ exists dir, fst m = dir ++ snd m) members.
Proof.
  unfold zipped. eexists. split; [reflexivity|]. split.
  - rewrite map_map. reflexivity.
  - apply Forall_map. apply Forall_forall. intros t _. simpl.
    split; [reflexivity|]. apply basename_flat.
Qed.

(** X16.  An archive that [download_media] answers with is that of the
    album with the identifier, or of the folder when the identifier is not
    that of a track or album: one member per track, read from the path of
    the track and named by the last component of that path, so that no
    member name has a slash; the archive is typed [application/zip] and
    offered under the name of the album or folder with [.zip] at its end. *)
Theorem zip_members_are_flat `{EntityIds} (db : entities) (id : option string)
    (members : list (string * string)) (mime disposition : string) :
  download_media db id = inl (Zipped members mime disposition) ->
  exists id' rv,
    id = Some id'
    /\ ((exists uid, get_track_id id' = Some uid
                     /\ track_table db !! uid = None
                     /\ album_table db !! uid = Some rv)
        \/ (exists fid, get_track_id id' = None
                        /\ get_folder_id id' = Some fid
                        /\ folder_table db !! fid = Some rv))
    /\ map fst members = map path (coll_tracks rv)
    /\ Forall (fun m => snd m = OsPath.basename (fst m)
                        /\ Py.contains_char "/" (snd m) = false
                        /\ exists dir, fst m = dir ++ snd m) members
    /\ mime = "application/zip"
    /\ disposition = "attachment; filename=" ++ coll_name rv ++ ".zip".
Proof.
  unfold download_media. destruct id as [id'|]; [|discriminate].
  destruct (get_track_id id') as [uid|] eqn:Hu.
  - destruct (track_table db !! uid) as [t|] eqn:Ht; [discriminate|].
    destruct (album_table db !! uid) as [rv|] eqn:Ha; [|discriminate].
    destruct (get_folder_id id'); intros Hz;
      destruct (zipped_members rv) as (ms & Hrv & Hp & Hall);
      rewrite Hrv in Hz; injection Hz as <- <- <-;
      exists id', rv; eauto 12.
  - destruct (get_folder_id id') as [fid|] eqn:Hf; [|discriminate].
    destruct (folder_table db !! fid) as [rv|] eqn:Hfo; [|discriminate].
    intros Hz. destruct (zipped_members rv) as (ms & Hrv & Hp & Hall).
    rewrite Hrv in Hz. injection Hz as <- <- <-.
    exists id', rv. eauto 12.
Qed.

Lemma zip_members_are_flat_witness :
  @download_media example_ids example_entities
    (Some "7a1b2c3d-4e5f-4a6b-8c7d-9e0f1a2b3c4d")
  = inl (Zipped
           [("/music/Kind of Blue/01 So What.mp3", "01 So What.mp3");
            ("/music/Kind of Blue/05 Flamenco Sketches.flac",
             "05 Flamenco Sketches.flac")]
           "application/zip" "attachment; filename=Kind of Blue.zip")
  /\ Forall (fun m => Py.contains_char "/" (snd m) = false)
       [("/music/Kind of Blue/01 So What.mp3", "01 So What.mp3");
        ("/music/Kind of Blue/05 Flamenco Sketches.flac",
         "05 Flamenco Sketches.flac")].
Proof.
  split; [reflexivity|].
  destruct (@zip_members_are_flat example_ids example_entities
              (Some "7a1b2c3d-4e5f-4a6b-8c7d-9e0f1a2b3c4d") _ _ _ eq_refl)
    as (id' & rv & _ & _ & _ & Hall & _).
  eapply Forall_impl; [exact Hall|]. intros m (_ & Hm & _). exact Hm.
Defined.

(** X17.  A track wins over everything else: when the identifier is that of
    a track in the store, the answer is the file of this track, sent with
    conditional handling, whatever albums and folders the store has and
    whether or not the identifier also reads as that of a folder; and a
    single file is never sent for anything but such a track. *)
Theorem download_of_a_track `{EntityIds} (db : entities) (id : option string) :
  (forall id' uid rv,
     id = Some id' -> get_track_id id' = Some uid ->
     track_table db !! uid = Some rv ->
     download_media db id = inl (Plain (path rv) (mimetype rv) true))
  /\ (forall file mime conditional,
        download_media db id = inl (Plain file mime conditional) ->
        conditional = true
        /\ exists id' uid rv,
             id = Some id' /\ get_track_id id' = Some uid
             /\ track_table db !! uid = Some rv
             /\ file = path rv /\ mime = mimetype rv).
Proof.
  split.
  - intros id' uid rv -> Hu Ht. unfold download_media. rewrite Hu, Ht.
    now destruct (get_folder_id id').
  - intros file mime conditional. unfold download_media, zipped.
    destruct id as [id'|]; [|discriminate].
    destruct (get_track_id id') as [uid|] eqn:Hu.
    + destruct (track_table db !! uid) as [rv|] eqn:Ht.
      * destruct (get_folder_id id'); intros [= <- <- <-]; eauto 10.
      * destruct (album_table db !! uid); destruct (get_folder_id id');
          discriminate.
    + destruct (get_folder_id id') as [fid|]; [|discriminate].
      destruct (folder_table db !! fid); discriminate.
Qed.

Lemma download_of_a_track_witness :
  @download_media example_ids example_entities (Some (id so_what))
  = inl (Plain "/music/Kind of Blue/01 So What.mp3" "audio/mpeg" true).
Proof.
  exact (proj1 (@download_of_a_track example_ids example_entities
                  (Some (id so_what)))
               (id so_what) (id so_what) so_what eq_refl eq_refl eq_refl).
Defined.

(** X18.  The errors of [download_media], each with its cause: a request
    without [id]; an identifier that reads neither as that of a track nor as
    that of a folder; one that reads as that of a track (whether or not
    also as that of a folder) and names no track and no album; one that
    reads only as that of a folder and names none. *)
Theorem download_errors `{EntityIds} (db : entities) (id : option string)
    (e : download_error) :
  download_media db id = inr e <->
  (id = None /\ e = BadRequestKeyError "id")
  \/ (exists id',
        id = Some id'
        /\ ((get_track_id id' = None /\ get_folder_id id' = None
             /\ e = DownloadGenericError "Invalid ID")
            \/ (exists uid, get_track_id id' = Some uid
                            /\ track_table db !! uid = None
                            /\ album_table db !! uid = None
                            /\ e = NotFound "Track or Album")
            \/ (exists fid, get_track_id id' = None
                            /\ get_folder_id id' = Some fid
                            /\ folder_table db !! fid = None
                            /\ e = NotFound "Folder"))).
Proof.
  unfold download_media, zipped. split.
  - destruct id as [id'|]; [|intros [= <-]; auto].
    intros He. right. exists id'. split; [reflexivity|].
    destruct (get_track_id id') as [uid|].
    + destruct (track_table db !! uid) eqn:Ht;
        [destruct (get_folder_id id'); discriminate|].
      destruct (album_table db !! uid) eqn:Ha;
        [destruct (get_folder_id id'); discriminate|].
      right. left. exists uid.
      destruct (get_folder_id id'); injection He as <-; repeat split;
        assumption.
    + destruct (get_folder_id id') as [fid|].
      * destruct (folder_table db !! fid) eqn:Hf; [discriminate|].
        injection He as <-. right. right. exists fid. repeat split.
        exact Hf.
      * injection He as <-. left. repeat split.
  - intros [[-> ->]|(id' & -> & [(-> & -> & ->)
                                |[(uid & -> & -> & -> & ->)
                                 |(fid & -> & -> & -> & ->)]])];
      reflexivity.
Qed.

Lemma download_errors_witness :
  @download_media example_ids example_entities (Some "13")
  = inr (NotFound "Folder").
Proof.
  apply (@download_errors example_ids example_entities (Some "13")).
  right. exists "13". split; [reflexivity|]. right. right.
  exists 13%Z. repeat split.
Defined.

(** ** [lyrics] *)




(** X20.  The lyrics come from the first track of the query whose lyrics
    file exists and can be read and decoded, under the name of the artist of
    its album: every track before it has no lyrics file or one that cannot
    be decoded, which is passed over and is no error.  Line 344 and the
    lookup behind it are reached exactly when this holds of every track of
    the query. *)
Theorem first_readable_lyrics (fs : gmap string file) (query : list song) :
  (forall artist title value,
     lyrics_from_files fs query = LyricsFound artist title value <->
     exists skipped track rest,
       query = (skipped ++ track :: rest)%list
       /\ Forall (without_lyrics fs) skipped
       /\ fs !! lyrics_path (song_path track) = Some (Text value)
       /\ artist = song_album_artist track /\ title = song_title track)
  /\ (lyrics_from_files fs query = NoLocalLyrics
      <-> Forall (without_lyrics fs) query).
Proof.
  assert (Hskip : forall skipped rest,
             Forall (without_lyrics fs) skipped ->
             lyrics_from_files fs (skipped ++ rest)
             = lyrics_from_files fs rest).
  { intros skipped rest Hall.
    induction Hall as [|t skipped [Ht|Ht] _ IH]; [reflexivity| |];
      cbn [app lyrics_from_files]; now rewrite Ht. }
  split.
  - intros artist title value. split.
    + induction query as [|t query IH]; [discriminate|].
      cbn [lyrics_from_files].
      destruct (fs !! lyrics_path (song_path t)) as [[content| |]|] eqn:Ht.
      * intros [= <- <- <-]. exists [], t, query. repeat split.
        -- constructor.
        -- exact Ht.
      * intros Hl. destruct (IH Hl) as (sk & tr & rest & -> & Hall & Hf & Ha).
        exists (t :: sk), tr, rest. split; [reflexivity|].
        split; [constructor; [now right|exact Hall]|]. auto.
      * discriminate.
      * intros Hl. destruct (IH Hl) as (sk & tr & rest & -> & Hall & Hf & Ha).
        exists (t :: sk), tr, rest. split; [reflexivity|].
        split; [constructor; [now left|exact Hall]|]. auto.
    + intros (sk & tr & rest & -> & Hall & Hf & -> & ->).
      rewrite Hskip by exact Hall. cbn [lyrics_from_files]. now rewrite Hf.
  - split.
    + induction query as [|t query IH]; [constructor|].
      cbn [lyrics_from_files].
      destruct (fs !! lyrics_path (song_path t)) as [[content| |]|] eqn:Ht;
        try discriminate; intros Hl; constructor; auto;
        [now right|now left].
    + intros Hall. rewrite <- (app_nil_r query). now rewrite Hskip.
Qed.

Lemma first_readable_lyrics_witness :
  lyrics_from_files example_files [blue_in_green; all_blues]
  = LyricsFound "Miles Davis" "All Blues" "(instrumental)".
Proof.
  apply (proj1 (first_readable_lyrics example_files
                  [blue_in_green; all_blues])).
  exists [blue_in_green], all_blues, []. split; [reflexivity|].
  split; [|repeat split].
  constructor; [right; reflexivity|constructor].
Defined.
